(** * Bootstrap linking and installation: a model of [BootstrapCommand]

    The development embeds [src/commands/BootstrapCommand.js] (and its
    compiled counterpart, which differs in one object literal) as state-passing
    Rocq functions and proves properties of the linking and installation
    pipeline.

    Conventions of the embedding.
    - A Node-style callback [callback(err)] becomes the returned value
      [option Error] ([None] for a call without error).  A synchronous
      exception that nothing catches becomes the outcome [Thrown].
    - The file system, the module loader, the installer, [semver], [path] and
      [glob] are collaborators whose code is not part of the command; they are
      the fields of the class [Env], over an abstract [World].
      [semver.satisfies] is taken as a total function to [bool].
    - Every call to a collaborator is appended, with its answer, to a trace
      of [Event]s, so that what the command did can be observed.
    - The [async] combinators run their tasks in list order, one after the
      other, and deliver their result when every started task has finished.
      This is one of the schedules of the event loop; the first failure is
      then the first one in list order.
    - JavaScript values are strings or [undefined] ([option string]); an
      object used as a map ([allDependencies]) is a finite map of its own
      properties. *)

From Stdlib Require Import Ascii String.
From stdpp Require Import base option list strings gmap pretty.

Local Open Scope string_scope.
Local Open Scope list_scope.

(** ** JavaScript values used by the command *)

(** A JavaScript [Error]: the optional [code] property and the message. *)
Record Error := { code : option string; message : string }.

(** The fields of a parsed [package.json] that the command reads:
    [version], [main] and [lerna.files].  A missing property is [None];
    the elements of [lerna.files] are strings or [undefined], since the
    command pushes [pkg.main] on that array. *)
Record PackageJson := {
  pj_version : option string;
  pj_main : option string;
  pj_lerna_files : option (list (option string))
}.

(** A workspace package, as the command uses it. *)
Record Package := {
  name : string;
  version : string;
  location : string;
  nodeModulesLocation : string;
  allDependencies : gmap string string
}.

(** The state of the command object ([this]). *)
Record Command := {
  packages : list Package;
  flags_ignore : option string;
  bootstrapConfig_ignore : option string;
  linkedFiles_prefix : option string;
  concurrency : nat
}.

(** The command exists twice in the repository: as ES source and as compiled
    output.  They differ in the object written as the generated manifest. *)
Inductive Build := EsSource | CompiledLib.

(** The outcome of running a piece of code: a value, or an exception that
    was not caught. *)
Inductive Outcome (A : Type) :=
| Returned (a : A)
| Thrown (e : Error).
Arguments Returned {A} a.
Arguments Thrown {A} e.

(** ** The trace of calls to collaborators *)

Inductive Event :=
| EvRimraf (p : string) (r : option Error)
| EvMkdirp (p : string) (r : option Error)
| EvWriteFile (p content : string) (r : option Error)
| EvSymlink (src dst : string) (r : option Error)
| EvGlob (pattern : option string) (cwd : string) (r : Outcome (Error + list string))
| EvRequire (p : string) (r : Error + PackageJson)
| EvInstallInDir (dir : string) (specs : list string) (r : option Error)
| EvSatisfies (actual expected : option string) (r : bool)
| EvWarning (msg : string)
| EvInfo (msg : string)
| EvSuccess (msg : string)
| EvProgressInit (total : nat)
| EvProgressTick (pkg : string)
| EvProgressTerminate.

(** ** Collaborators *)

Class Env (World : Type) := {
  (** [semver.satisfies(actual, expected)]; either argument may be
      [undefined]. *)
  semver_satisfies : option string → option string → bool;
  (** [path.join(...segments)], [path.dirname], [path.extname]. *)
  path_join : list string → string;
  path_dirname : string → string;
  path_extname : string → string;
  (** [FileSystemUtilities.rimraf / mkdirp / writeFile]. *)
  FileSystemUtilities_rimraf : string → World → option Error * World;
  FileSystemUtilities_mkdirp : string → World → option Error * World;
  FileSystemUtilities_writeFile : string → string → World → option Error * World;
  (** [symlink(src, dest)] of [fs-symlink]: [None] when the promise
      resolves, the rejection otherwise. *)
  symlink : string → string → World → option Error * World;
  (** [glob(pattern, { cwd })]: reads the world and hands an error or the
      matched files to its callback, unless it throws. *)
  glob : option string → string → World → Outcome (Error + list string);
  (** The module loader reading and parsing a file not yet in its cache. *)
  load_json : string → World → Error + PackageJson;
  (** [NpmUtilities.installInDir]. *)
  NpmUtilities_installInDir : string → list string → World → option Error * World;
  (** [PackageUtilities.filterPackages(packages, ignore, negate)]. *)
  PackageUtilities_filterPackages : list Package → option string → bool → list Package
}.

(** ** Strings and JSON *)

Definition dquote : string := String "034"%char EmptyString.
Definition backslash : string := String "092"%char EmptyString.
Definition newline : string := String "010"%char EmptyString.

Definition hex_digit (n : nat) : ascii :=
  nth n (list_ascii_of_string "0123456789abcdef") "0"%char.

(** One character of [JSON.stringify] applied to a string. *)
Definition json_escape_char (c : ascii) : string :=
  let n := nat_of_ascii c in
  if decide (n = 34) then backslash +:+ dquote
  else if decide (n = 92) then backslash +:+ backslash
  else if decide (n = 8) then backslash +:+ "b"
  else if decide (n = 12) then backslash +:+ "f"
  else if decide (n = 10) then backslash +:+ "n"
  else if decide (n = 13) then backslash +:+ "r"
  else if decide (n = 9) then backslash +:+ "t"
  else if decide (n < 32) then
    backslash +:+ "u00" +:+
    String (hex_digit (n / 16)) (String (hex_digit (n mod 16)) EmptyString)
  else String c EmptyString.

Fixpoint json_escape (s : string) : string :=
  match s with
  | EmptyString => EmptyString
  | String c s' => json_escape_char c +:+ json_escape s'
  end.

(** [JSON.stringify(s)] for a string [s]. *)
Definition JSON_stringify_string (s : string) : string :=
  dquote +:+ json_escape s +:+ dquote.

(** An object literal whose property values are strings or [undefined]. *)
Definition JsObject := list (string * option string).

(** The properties [JSON.stringify] serialises: those that are not
    [undefined]. *)
Definition own_fields (o : JsObject) : list (string * string) :=
  omap (λ kv, match kv.2 with Some v => Some (kv.1, v) | None => None end) o.

Definition json_member (indent : string) (kv : string * string) : string :=
  indent +:+ JSON_stringify_string kv.1 +:+ ": " +:+ JSON_stringify_string kv.2.

Fixpoint json_members (indent : string) (l : list (string * string)) : string :=
  match l with
  | [] => EmptyString
  | [kv] => json_member indent kv
  | kv :: l' => json_member indent kv +:+ "," +:+ newline +:+ json_members indent l'
  end.

(** [JSON.stringify(o, null, indent)] for such an object. *)
Definition JSON_stringify_object (o : JsObject) (indent : string) : string :=
  match own_fields o with
  | [] => "{}"
  | l => "{" +:+ newline +:+ json_members indent l +:+ newline +:+ "}"
  end.

(** [a || b] on values that are a string or [undefined]. *)
Definition js_or (a b : option string) : option string :=
  match a with
  | Some s => if decide (s = EmptyString) then b else Some s
  | None => b
  end.

(** The conversion of a string-or-[undefined] in a concatenation. *)
Definition js_to_string (a : option string) : string :=
  default "undefined" a.

(** [!v] for a string or [undefined]. *)
Definition js_falsy (a : option string) : bool :=
  match a with
  | Some s => bool_decide (s = EmptyString)
  | None => true
  end.

(** ** The state and the monad of the command *)

(** The state threaded through the command: the world of the collaborators,
    the cache of the module loader ([require] returns the cached object, and
    the command mutates it), and the trace. *)
Record State (World : Type) := mkState {
  world : World;
  modules : gmap string PackageJson;
  trace : list Event
}.
Arguments mkState {World} world modules trace.
Arguments world {World} s.
Arguments modules {World} s.
Arguments trace {World} s.

Definition M (World A : Type) : Type := State World → Outcome A * State World.

Global Instance M_ret {World} : MRet (M World) :=
  λ A a st, (Returned a, st).

Global Instance M_bind {World} : MBind (M World) :=
  λ A B k m st,
    match m st with
    | (Returned a, st') => k a st'
    | (Thrown e, st') => (Thrown e, st')
    end.

(** [try { m } catch (e) { handler(e) }]. *)
Definition try_catch {World A} (m : M World A) (handler : Error → M World A) : M World A :=
  λ st,
    match m st with
    | (Returned a, st') => (Returned a, st')
    | (Thrown e, st') => handler e st'
    end.

Definition log {World} (ev : Event) : M World unit :=
  λ st, (Returned (), mkState (world st) (modules st) (trace st ++ [ev])).

(** A call to a collaborator that changes the world and answers [r]. *)
Definition call {World R} (f : World → R * World) (ev : R → Event) : M World R :=
  λ st,
    let '(r, w) := f (world st) in
    (Returned r, mkState w (modules st) (trace st ++ [ev r])).

(** ** The combinators of [async]

    The code of the [async] library is not in the repository.  The
    combinators follow what the specification says of them: a pipeline is
    strictly sequential and stops at its first failure (4.4); the fan-outs
    over candidates and over matched files start every iteration and report
    the first failure (4.3, 5); the pool reports the first failure, lets the
    pipelines already started run to completion and starts no new one
    (4.5, 5). *)

Section Async.
Context {World : Type}.
Local Abbreviation M := (M World).

(** Modelled from the spec: [async.series(tasks, callback)], the tasks one
    after the other, until one fails. *)
Fixpoint async_series (tasks : list (M (option Error))) : M (option Error) :=
  match tasks with
  | [] => mret None
  | task :: tasks' =>
      err ← task;
      match err with
      | Some e => mret (Some e)
      | None => async_series tasks'
      end
  end.

(** Modelled from the spec: [async.each(arr, iterator, callback)]; every
    iteration is started and runs to its end, and the callback receives the
    first failure. *)
Fixpoint async_each {A} (arr : list A) (iterator : A → M (option Error))
    : M (option Error) :=
  match arr with
  | [] => mret None
  | x :: arr' =>
      err ← iterator x;
      rest ← async_each arr' iterator;
      mret (match err with Some e => Some e | None => rest end)
  end.

(** Modelled from the spec: [async.parallel(tasks, callback)]; every task
    is started, and the callback receives the first failure. *)
Definition async_parallel (tasks : list (M (option Error))) : M (option Error) :=
  async_each tasks (λ task, task).

(** Modelled from the spec: [async.map(arr, iterator, callback)]; every
    iteration is started, and the callback receives the first failure, or
    the results in order. *)
Fixpoint async_map {A B} (arr : list A) (iterator : A → M (Error + B))
    : M (Error + list B) :=
  match arr with
  | [] => mret (inr [])
  | x :: arr' =>
      r ← iterator x;
      rest ← async_map arr' iterator;
      mret (match r, rest with
            | inl e, _ => inl e
            | inr _, inl e => inl e
            | inr b, inr bs => inr (b :: bs)
            end)
  end.

(** Modelled from the spec: [async.waterfall([first, second], callback)];
    the second task receives the result of the first, unless it failed. *)
Definition async_waterfall {A} (first : M (Error + A))
    (second : A → M (option Error)) : M (option Error) :=
  r ← first;
  match r with
  | inl e => mret (Some e)
  | inr a => second a
  end.

(** Tasks that were started and whose result is no longer used. *)
Fixpoint run_started (tasks : list (M (option Error))) : M unit :=
  match tasks with
  | [] => mret ()
  | task :: tasks' => _ ← task; run_started tasks'
  end.

(** Modelled from the spec: the pool of [async.parallelLimit] with
    [S others] workers.  When a task fails, the [others] tasks started with
    it still run to completion, and no further task is started. *)
Fixpoint parallelLimit_pool (others : nat) (tasks : list (M (option Error)))
    : M (option Error) :=
  match tasks with
  | [] => mret None
  | task :: tasks' =>
      err ← task;
      match err with
      | Some e => _ ← run_started (take others tasks'); mret (Some e)
      | None => parallelLimit_pool others tasks'
      end
  end.

(** Modelled from the spec: [async.parallelLimit(tasks, limit, callback)];
    with a limit of 0 the callback is called at once and no task is
    started. *)
Definition async_parallelLimit (tasks : list (M (option Error))) (limit : nat)
    : M (option Error) :=
  match limit with
  | 0 => mret None
  | S others => parallelLimit_pool others tasks
  end.

(** [Array.prototype.filter] with a predicate that has effects. *)
Fixpoint array_filter {A} (p : A → M bool) (arr : list A) : M (list A) :=
  match arr with
  | [] => mret ([] : list A)
  | x :: arr' =>
      keep ← p x;
      rest ← array_filter p arr';
      mret (if (keep : bool) then x :: rest else rest)
  end.
End Async.

(** ** The command *)

Section BootstrapCommand.
Context {World : Type} `{!Env World}.
Variable build : Build.
Variable this : Command.
Local Abbreviation M := (M World).

(** *** Collaborators, with their calls recorded *)

Definition rimraf (p : string) : M (option Error) :=
  call (FileSystemUtilities_rimraf p) (EvRimraf p).

Definition mkdirp (p : string) : M (option Error) :=
  call (FileSystemUtilities_mkdirp p) (EvMkdirp p).

Definition writeFile (p content : string) : M (option Error) :=
  call (FileSystemUtilities_writeFile p content) (EvWriteFile p content).

Definition fs_symlink (src dst : string) : M (option Error) :=
  call (symlink src dst) (EvSymlink src dst).

Definition installInDir (dir : string) (specs : list string) : M (option Error) :=
  call (NpmUtilities_installInDir dir specs) (EvInstallInDir dir specs).

Definition run_glob (pattern : option string) (cwd : string) : M (Error + list string) :=
  λ st,
    let r := glob pattern cwd (world st) in
    (r, mkState (world st) (modules st) (trace st ++ [EvGlob pattern cwd r])).

(** [require(p)] of a JSON file: the cached object when there is one;
    otherwise the file is loaded and cached, or the failure is thrown. *)
Definition require (p : string) : M PackageJson :=
  λ st,
    let r := match modules st !! p with
             | Some pj => inr pj
             | None => load_json p (world st)
             end in
    let tr := trace st ++ [EvRequire p r] in
    match r with
    | inr pj => (Returned pj, mkState (world st) (<[p:=pj]> (modules st)) tr)
    | inl e => (Thrown e, mkState (world st) (modules st) tr)
    end.

(** A mutation of the object that [require(p)] returned. *)
Definition set_module (p : string) (pj : PackageJson) : M unit :=
  λ st, (Returned (), mkState (world st) (<[p:=pj]> (modules st)) (trace st)).

(** *** [isCompatableVersion], lines 194-196 *)

Definition isCompatableVersion (actual expected : option string) : M bool :=
  let r := semver_satisfies actual expected in
  _ ← log (EvSatisfies actual expected r);
  mret r.

(** *** [hasMatchingDependency], lines 159-180 *)

Definition mismatch_warning (pkg dependency : Package) (expectedVersion : option string)
    (actualVersion : string) : string :=
  "Version mismatch inside " +:+ dquote +:+ name pkg +:+ dquote +:+ ". " +:+
  "Depends on " +:+ dquote +:+ name dependency +:+ "@" +:+
    js_to_string expectedVersion +:+ dquote +:+ " " +:+
  "instead of " +:+ dquote +:+ name dependency +:+ "@" +:+ actualVersion +:+
    dquote +:+ ".".

Definition hasMatchingDependency (pkg dependency : Package) (showWarning : bool)
    : M bool :=
  let expectedVersion := allDependencies pkg !! name dependency in
  let actualVersion := version dependency in
  if js_falsy expectedVersion then mret false
  else
    compatible ← isCompatableVersion (Some actualVersion) expectedVersion;
    if (compatible : bool) then mret true
    else
      _ ← (if showWarning
           then log (EvWarning (mismatch_warning pkg dependency expectedVersion actualVersion))
           else mret ());
      mret false.

(** *** [hasDependencyInstalled], lines 182-192 *)

Definition hasDependencyInstalled (pkg : Package) (dependency : string) : M bool :=
  let packageJson := path_join [nodeModulesLocation pkg; dependency; "package.json"] in
  try_catch
    (installed ← require packageJson;
     isCompatableVersion (pj_version installed) (allDependencies pkg !! dependency))
    (λ _, mret false).

(** *** [installExternalPackages], lines 134-157 *)

(** [Object.keys] of the dependency map: each key once.  The order is the
    one of the finite map, not the order of insertion. *)
Definition Object_keys (o : gmap string string) : list string :=
  (map_to_list o).*1.

(** The constant [externalPackages], lines 137-150. *)
Definition externalPackages (pkg : Package) : M (list string) :=
  let allDependencies := allDependencies pkg in
  notLinked ← array_filter (λ dependency,
      match List.find (λ p, bool_decide (name p = dependency)) (packages this) with
      | Some match_ =>
          matching ← hasMatchingDependency pkg match_ false;
          mret (negb matching)
      | None => mret true
      end) (Object_keys allDependencies);
  notInstalled ← array_filter (λ dependency,
      installed ← hasDependencyInstalled pkg dependency;
      mret (negb installed)) notLinked;
  mret (map (λ dependency,
              dependency +:+ "@" +:+ js_to_string (allDependencies !! dependency))
            notInstalled).

Definition installExternalPackages (pkg : Package) : M (option Error) :=
  externalPackages ← externalPackages pkg;
  match externalPackages with
  | [] => mret None
  | _ :: _ => installInDir (location pkg) externalPackages
  end.

(** *** [createLinkedDependencyFiles], lines 78-132 *)

(** The object serialised as the generated manifest: lines 88-91 of the ES
    source, lines 164-168 of the compiled output. *)
Definition manifest_object (name : string) (pkg : PackageJson) : JsObject :=
  match build with
  | EsSource => [("name", Some name); ("version", pj_version pkg)]
  | CompiledLib => [("name", Some name); ("version", pj_version pkg); ("main", pj_main pkg)]
  end.

(** Lines 85-86: [(pkg.lerna && pkg.lerna.files) || []], then
    [linkFiles.push(pkg.main)].  When the array is the one of the loaded
    manifest, the push changes the cached object. *)
Definition linkFiles_of (srcPackageJsonLocation : string) (pkg : PackageJson)
    : M (list (option string)) :=
  match pj_lerna_files pkg with
  | Some files =>
      let linkFiles := files ++ [pj_main pkg] in
      _ ← set_module srcPackageJsonLocation
            {| pj_version := pj_version pkg; pj_main := pj_main pkg;
               pj_lerna_files := Some linkFiles |};
      mret linkFiles
  | None => mret [pj_main pkg]
  end.

(** The content of a generated proxy, line 109. *)
Definition proxy_content (prefix src file : string) : string :=
  prefix +:+ "module.exports = require(" +:+
  JSON_stringify_string (path_join [src; file]) +:+ ");".

(** The second task of the series of one matched file, lines 107-122. *)
Definition materialize (prefix src dest file : string) : M (option Error) :=
  if decide (path_extname file = ".js") then
    let fileContent := proxy_content prefix src file in
    writeFile (path_join [dest; file]) fileContent
  else
    err ← fs_symlink (path_join [src; file]) (path_join [dest; file]);
    match err with
    | None => mret None
    | Some e =>
        if decide (code e = Some "EEXIST") then mret None else mret (Some e)
    end.

(** The iteration over one matched file, lines 100-124. *)
Definition linkFile (prefix src dest file : string) : M (option Error) :=
  let dir := path_dirname (path_join [dest; file]) in
  async_series [mkdirp dir; materialize prefix src dest file].

Definition createLinkedDependencyFiles (src dest name : string) : M (option Error) :=
  let srcPackageJsonLocation := path_join [src; "package.json"] in
  let destPackageJsonLocation := path_join [dest; "package.json"] in
  pkg ← require srcPackageJsonLocation;
  let prefix := js_to_string (js_or (linkedFiles_prefix this) (Some EmptyString)) in
  linkFiles ← linkFiles_of srcPackageJsonLocation pkg;
  let packageJsonFileContents := JSON_stringify_object (manifest_object name pkg) "  " in
  async_parallel [
    async_waterfall
      (async_map linkFiles (λ file, run_glob file src))
      (λ files,
        let files := concat files in
        async_each files (linkFile prefix src dest));
    writeFile destPackageJsonLocation packageJsonFileContents
  ].

(** *** [createLinkedDependency], lines 62-76 *)

Definition createLinkedDependency (src dest name : string) : M (option Error) :=
  err ← rimraf dest;
  match err with
  | Some e => mret (Some e)
  | None =>
      err ← mkdirp dest;
      match err with
      | Some e => mret (Some e)
      | None => createLinkedDependencyFiles src dest name
      end
  end.

(** *** [linkDependenciesForPackage], lines 51-60 *)

(** The iteration over one candidate, lines 52-59. *)
Definition linkCandidate (pkg dependency : Package) : M (option Error) :=
  matching ← hasMatchingDependency pkg dependency true;
  if negb matching then mret None
  else
    let linkSrc := location dependency in
    let linkDest := path_join [nodeModulesLocation pkg; name dependency] in
    createLinkedDependency linkSrc linkDest (name dependency).

Definition linkDependenciesForPackage (pkg : Package) : M (option Error) :=
  async_each (packages this) (linkCandidate pkg).

(** *** [linkDependencies], lines 30-49 *)

(** The task of one package, lines 36-44. *)
Definition bootstrapPackage (pkg : Package) : M (option Error) :=
  err ← async_series [
    mkdirp (nodeModulesLocation pkg);
    installExternalPackages pkg;
    linkDependenciesForPackage pkg
  ];
  _ ← log (EvProgressTick (name pkg));
  mret err.

Definition linkDependencies : M (option Error) :=
  _ ← log (EvProgressInit (length (packages this)));
  _ ← log (EvInfo "Linking all dependencies");
  let ignore := js_or (flags_ignore this) (bootstrapConfig_ignore this) in
  err ← async_parallelLimit
          (map bootstrapPackage
               (PackageUtilities_filterPackages (packages this) ignore true))
          (concurrency this);
  _ ← log EvProgressTerminate;
  mret err.

(** *** [initialize], lines 14-17: the callback receives [(null, true)]. *)

Definition initialize : M (Error + bool) := mret (inr true).

(** *** [execute], lines 19-28: the callback receives [err], or
    [(null, true)]. *)

Definition execute : M (Error + bool) :=
  err ← linkDependencies;
  match err with
  | Some e => mret (inl e)
  | None =>
      _ ← log (EvSuccess ("Successfully bootstrapped " +:+
                          pretty (length (packages this)) +:+ " packages."));
      mret (inr true)
  end.

End BootstrapCommand.

(** ** An in-memory instance of the collaborators

    Modelled from the spec: the collaborators of section 6, whose code is not
    under [src/].  A small world on which the command can be run: a map from
    paths to nodes, a list of paths at which every change is refused with
    [EACCES], and a version checker that knows exact versions and the ranges
    that accept everything (the empty range and [*]); on these inputs it
    answers as [semver] does. *)

Module Mem.

Inductive Node :=
| JsonFile (pj : PackageJson)
| TextFile (content : string)
| Link (target : string)
| Directory.

Record World := mkWorld {
  nodes : gmap string Node;
  denied : list string;
  registry_up : bool
}.

Definition EACCES : Error := {| code := Some "EACCES"; message := "permission denied" |}.
Definition EEXIST : Error := {| code := Some "EEXIST"; message := "file already exists" |}.
Definition NOT_FOUND : Error :=
  {| code := Some "MODULE_NOT_FOUND"; message := "Cannot find module" |}.
Definition SYNTAX : Error := {| code := None; message := "Unexpected token" |}.
Definition BAD_PATTERN : Error :=
  {| code := None; message := "glob pattern string required" |}.
Definition INSTALL_FAILED : Error :=
  {| code := Some "ENOTFOUND"; message := "npm install failed" |}.

Definition is_denied (p : string) (w : World) : bool :=
  bool_decide (p ∈ denied w).

Definition set_nodes (w : World) (n : gmap string Node) : World :=
  mkWorld n (denied w) (registry_up w).

Definition change (p : string) (f : gmap string Node → gmap string Node) (w : World)
    : option Error * World :=
  if is_denied p w then (Some EACCES, w) else (None, set_nodes w (f (nodes w))).

Definition remove (p : string) : World → option Error * World :=
  change p (λ n, filter (λ kv, ¬ (kv.1 = p ∨ String.prefix (p +:+ "/") kv.1 = true)) n).

Definition make_dirs (p : string) : World → option Error * World :=
  change p (λ n, match n !! p with Some _ => n | None => <[p:=Directory]> n end).

Definition write (p content : string) : World → option Error * World :=
  change p (λ n, <[p:=TextFile content]> n).

Definition link (src dst : string) (w : World) : option Error * World :=
  if is_denied dst w then (Some EACCES, w)
  else match nodes w !! dst with
       | Some _ => (Some EEXIST, w)
       | None => (None, set_nodes w (<[dst:=Link src]> (nodes w)))
       end.

Definition join (segments : list string) : string :=
  String.concat "/" segments.

(** The parts of [s] before and after the last occurrence of [sep]. *)
Fixpoint split_last (sep : ascii) (s : string) : option (string * string) :=
  match s with
  | EmptyString => None
  | String c s' =>
      match split_last sep s' with
      | Some (before, after) => Some (String c before, after)
      | None => if decide (c = sep) then Some (EmptyString, s') else None
      end
  end.

Definition basename (p : string) : string :=
  match split_last "/" p with
  | Some (_, b) => b
  | None => p
  end.

Definition dirname (p : string) : string :=
  match split_last "/" p with
  | Some (d, _) => if decide (d = EmptyString) then "/" else d
  | None => "."
  end.

Definition extname (p : string) : string :=
  match split_last "." (basename p) with
  | Some (stem, ext) =>
      if decide (stem = EmptyString) then EmptyString else "." +:+ ext
  | None => EmptyString
  end.

(** Patterns without wildcards: the pattern matches itself when the file
    exists. *)
Definition expand (pattern : option string) (cwd : string) (w : World)
    : Outcome (Error + list string) :=
  match pattern with
  | None => Thrown BAD_PATTERN
  | Some pat =>
      match nodes w !! join [cwd; pat] with
      | Some _ => Returned (inr [pat])
      | None => Returned (inr [])
      end
  end.

Definition read_json (p : string) (w : World) : Error + PackageJson :=
  match nodes w !! p with
  | Some (JsonFile pj) => inr pj
  | Some _ => inl SYNTAX
  | None => inl NOT_FOUND
  end.

Definition install (dir : string) (specs : list string) (w : World)
    : option Error * World :=
  if registry_up w then (None, w) else (Some INSTALL_FAILED, w).

Definition satisfies (actual expected : option string) : bool :=
  match actual, expected with
  | Some v, Some range =>
      bool_decide (range = EmptyString) || bool_decide (range = "*")
      || bool_decide (range = v)
  | _, _ => false
  end.

Definition filterPackages (pkgs : list Package) (ignore : option string)
    (negate : bool) : list Package :=
  match ignore with
  | Some pattern =>
      filter (λ p, xorb negate (bool_decide (name p = pattern)) = true) pkgs
  | None => pkgs
  end.

#[export] Instance env : Env World := {|
  semver_satisfies := satisfies;
  path_join := join;
  path_dirname := dirname;
  path_extname := extname;
  FileSystemUtilities_rimraf := remove;
  FileSystemUtilities_mkdirp := make_dirs;
  FileSystemUtilities_writeFile := write;
  symlink := link;
  glob := expand;
  load_json := read_json;
  NpmUtilities_installInDir := install;
  PackageUtilities_filterPackages := filterPackages
|}.

(** The workspace of the scenario: [A] declares [B@1.2.0], and [B] is at
    version 1.2.0 with main entry [index.js]. *)
Definition pkgA : Package :=
  {| name := "A"; version := "0.1.0"; location := "/ws/A";
     nodeModulesLocation := "/ws/A/node_modules";
     allDependencies := {[ "B" := "1.2.0" ]} |}.

Definition pkgB : Package :=
  {| name := "B"; version := "1.2.0"; location := "/ws/B";
     nodeModulesLocation := "/ws/B/node_modules";
     allDependencies := ∅ |}.

Definition manifestB : PackageJson :=
  {| pj_version := Some "1.2.0"; pj_main := Some "index.js"; pj_lerna_files := None |}.

Definition manifestA : PackageJson :=
  {| pj_version := Some "0.1.0"; pj_main := Some "index.js"; pj_lerna_files := None |}.

Definition disk0 : gmap string Node :=
  {[ "/ws/A/package.json" := JsonFile manifestA;
     "/ws/A/index.js" := TextFile "module.exports = 1;";
     "/ws/B/package.json" := JsonFile manifestB;
     "/ws/B/index.js" := TextFile "module.exports = 2;" ]}.

Definition world0 : World := mkWorld disk0 [] true.

Definition command0 : Command :=
  {| packages := [pkgA; pkgB]; flags_ignore := None; bootstrapConfig_ignore := None;
     linkedFiles_prefix := None; concurrency := 4 |}.

Definition start (w : World) : State World := mkState w ∅ [].

(** Variations of the scenario. *)

(** A second dependent of [B]. *)
Definition pkgC : Package :=
  {| name := "C"; version := "0.3.0"; location := "/ws/C";
     nodeModulesLocation := "/ws/C/node_modules";
     allDependencies := {[ "B" := "*" ]} |}.

Definition declaring (p : Package) (deps : gmap string string) : Package :=
  {| name := name p; version := version p; location := location p;
     nodeModulesLocation := nodeModulesLocation p; allDependencies := deps |}.

Definition workspace (pkgs : list Package) (limit : nat) : Command :=
  {| packages := pkgs; flags_ignore := None; bootstrapConfig_ignore := None;
     linkedFiles_prefix := None; concurrency := limit |}.

(** [A] accepts any version of [B]: the empty range. *)
Definition pkgA_any : Package := declaring pkgA {[ "B" := EmptyString ]}.

(** [A] wants a version of [B] that the workspace does not have. *)
Definition pkgA_next : Package := declaring pkgA {[ "B" := "2.0.0" ]}.

(** [A] declares a dependency on itself. *)
Definition pkgA_self : Package := declaring pkgA {[ "A" := "0.1.0" ]}.

(** The manifest of [B] cannot be parsed. *)
Definition world_malformed : World :=
  mkWorld (<[ "/ws/B/package.json" := TextFile "{" ]> disk0) [] true.

(** The dependency directory of [A] cannot be created. *)
Definition world_denied : World :=
  mkWorld disk0 ["/ws/A/node_modules"] true.

(** [B] exposes a data file, both as its main entry and among its linked
    files. *)
Definition manifestB_data : PackageJson :=
  {| pj_version := Some "1.2.0"; pj_main := Some "data.json";
     pj_lerna_files := Some [Some "data.json"] |}.

Definition world_data : World :=
  mkWorld (<[ "/ws/B/package.json" := JsonFile manifestB_data ]>
            (<[ "/ws/B/data.json" := TextFile "{}" ]> disk0)) [] true.

(** The link to the data file of [B] is already there. *)
Definition world_relinked : World :=
  mkWorld (<[ "/ws/A/node_modules/B/data.json" := Link "/ws/B/data.json" ]>
            (nodes world_data)) [] true.

End Mem.


(** ** Reading back a JSON string literal *)

Inductive UnescapeState :=
| Plain
| Escaped
| Hex (remaining acc : nat).

Definition hex_value (c : ascii) : option nat :=
  let n := nat_of_ascii c in
  if decide (48 ≤ n ∧ n ≤ 57)%nat then Some (n - 48)
  else if decide (97 ≤ n ∧ n ≤ 102)%nat then Some (n - 87)
  else if decide (65 ≤ n ∧ n ≤ 70)%nat then Some (n - 55)
  else None.

Definition escaped_char (c : ascii) : option ascii :=
  let n := nat_of_ascii c in
  if decide (n = 34) then Some c
  else if decide (n = 92) then Some c
  else if decide (n = 47) then Some c
  else if decide (n = 98) then Some (ascii_of_nat 8)
  else if decide (n = 102) then Some (ascii_of_nat 12)
  else if decide (n = 110) then Some (ascii_of_nat 10)
  else if decide (n = 114) then Some (ascii_of_nat 13)
  else if decide (n = 116) then Some (ascii_of_nat 9)
  else None.

(** The characters of a JSON string literal after its opening quote, up to
    and including the closing quote, which must end the text. *)
Fixpoint json_unescape (s : UnescapeState) (text : string) : option string :=
  match text with
  | EmptyString => None
  | String c rest =>
      match s with
      | Plain =>
          let n := nat_of_ascii c in
          if decide (n = 34) then
            match rest with EmptyString => Some EmptyString | _ => None end
          else if decide (n = 92) then json_unescape Escaped rest
          else if decide (n < 32) then None
          else String c <$> json_unescape Plain rest
      | Escaped =>
          if decide (nat_of_ascii c = 117) then json_unescape (Hex 3 0) rest
          else match escaped_char c with
               | Some c' => String c' <$> json_unescape Plain rest
               | None => None
               end
      | Hex remaining acc =>
          match hex_value c with
          | Some d =>
              match remaining with
              | 0 =>
                  if decide (acc * 16 + d < 256)
                  then String (ascii_of_nat (acc * 16 + d)) <$> json_unescape Plain rest
                  else None
              | S remaining' => json_unescape (Hex remaining' (acc * 16 + d)) rest
              end
          | None => None
          end
      end
  end.

(** The string denoted by a JSON string literal. *)
Definition JSON_parse_string (text : string) : option string :=
  match text with
  | String c rest => if decide (nat_of_ascii c = 34) then json_unescape Plain rest else None
  | EmptyString => None
  end.

(** * Observables

    What is observed of a run: the events it appends to the trace, and the
    decisions that the claims speak of. *)

Section Run.
Context {World : Type}.
Local Abbreviation M := (M World).

(** [triple m Q]: from every state, [m] appends some events [evs] to the
    trace, and [Q] holds of its outcome and [evs]. *)
Definition triple {A} (m : M A) (Q : Outcome A → list Event → Prop) : Prop :=
  ∀ st, ∃ evs, trace (m st).2 = trace st ++ evs ∧ Q (m st).1 evs.

(** [emits φ m]: every event that [m] appends satisfies [φ]. *)
Definition emits {A} (φ : Event → Prop) (m : M A) : Prop :=
  triple m (λ _ evs, Forall φ evs).

(** The results of tasks run one after the other, all of them. *)
Fixpoint run_in_order (tasks : list (M (option Error))) : M (list (option Error)) :=
  match tasks with
  | [] => mret ([] : list (option Error))
  | task :: tasks' =>
      err ← task;
      errs ← run_in_order tasks';
      mret (err :: errs)
  end.

(** [keeps_modules m]: [m] does not change the cache of the module loader,
    whatever its outcome. *)
Definition keeps_modules {A} (m : M A) : Prop :=
  ∀ st, modules (m st).2 = modules st.

End Run.

Section Observables.
Context {World : Type} `{!Env World}.
Variable build : Build.
Variable this : Command.

(** What [require(p)] answers in state [st]: the cached object, or the
    result of loading the file. *)
Definition require_view (st : State World) (p : string)
    : Error + PackageJson :=
  match modules st !! p with
  | Some pj => inr pj
  | None => load_json p (world st)
  end.

(** A link of [dependency] into the dependency directory of [pkg] was
    attempted: its target path was reset. *)
Definition link_attempted (pkg dependency : Package)
    (evs : list Event) : Prop :=
  ∃ r, EvRimraf (path_join [nodeModulesLocation pkg; name dependency]) r ∈ evs.

(** The declared range of [dependency] in [pkg] is present and not empty,
    and the version of [dependency] satisfies it: the value that
    [hasMatchingDependency] computes. *)
Definition dependencyMatches (pkg dependency : Package) : bool :=
  negb (js_falsy (allDependencies pkg !! name dependency))
  && semver_satisfies (Some (version dependency)) (allDependencies pkg !! name dependency).

(** The prefix of the generated proxies: [this.repository.linkedFiles.prefix || ""]. *)
Definition configured_prefix (this : Command) : string :=
  js_to_string (js_or (linkedFiles_prefix this) (Some EmptyString)).

(** An event that is not the failure of a file-level operation or of the
    installer: any other event, an operation that succeeded, and a symbolic
    link refused because its target exists. *)
Definition fs_ok (ev : Event) : bool :=
  match ev with
  | EvRimraf _ r | EvMkdirp _ r | EvWriteFile _ _ r | EvInstallInDir _ _ r =>
      bool_decide (r = None)
  | EvSymlink _ _ r =>
      match r with
      | None => true
      | Some e => bool_decide (code e = Some "EEXIST")
      end
  | EvGlob _ _ r =>
      match r with
      | Returned (inr _) => true
      | _ => false
      end
  | _ => true
  end.

(** The event by which a matched file is materialised. *)
Definition materialize_event (prefix src dest file : string) (r : option Error) : Event :=
  if decide (path_extname file = ".js")
  then EvWriteFile (path_join [dest; file]) (proxy_content prefix src file) r
  else EvSymlink (path_join [src; file]) (path_join [dest; file]) r.

(** What the second task reports for the answer [r] of its operation. *)
Definition materialize_result (file : string) (r : option Error) : option Error :=
  if decide (path_extname file = ".js") then r
  else match r with
       | Some e => if decide (code e = Some "EEXIST") then None else Some e
       | None => None
       end.

(** The events of the linking of one sibling from [src] into [dest]. *)
Definition link_event (src dest name : string) (ev : Event) : Prop :=
  match ev with
  | EvRequire p _ => p = path_join [src; "package.json"]
  | EvGlob _ cwd _ => cwd = src
  | EvMkdirp d _ => ∃ file, d = path_dirname (path_join [dest; file])
  | EvWriteFile p content _ =>
      (∃ file, path_extname file = ".js" ∧ p = path_join [dest; file]
               ∧ content = proxy_content (configured_prefix this) src file)
      ∨ (p = path_join [dest; "package.json"]
         ∧ ∃ pkg, content = JSON_stringify_object (manifest_object build name pkg) "  ")
  | EvSymlink s d _ =>
      ∃ file, path_extname file ≠ ".js" ∧ s = path_join [src; file]
              ∧ d = path_join [dest; file]
  | _ => False
  end.

(** The events of [hasMatchingDependency]. *)
Definition matching_events (pkg dependency : Package) (showWarning : bool) : list Event :=
  let expectedVersion := allDependencies pkg !! name dependency in
  if js_falsy expectedVersion then []
  else
    let compatible := semver_satisfies (Some (version dependency)) expectedVersion in
    EvSatisfies (Some (version dependency)) expectedVersion compatible ::
    (if compatible then []
     else if showWarning
          then [EvWarning (mismatch_warning pkg dependency expectedVersion
                             (version dependency))]
          else []).

(** Two states in which the world is the same and [require] answers the
    same. *)
Definition same_view (st st' : State World) : Prop :=
  world st' = world st ∧ ∀ p, require_view st' p = require_view st p.

(** The manifest of the copy of [dependency] installed for [pkg]. *)
Definition installed_manifest (pkg : Package) (dependency : string) : string :=
  path_join [nodeModulesLocation pkg; dependency; "package.json"].

(** A package of the workspace is named [dependency], the range that [pkg]
    declares for it is not empty, and its version satisfies that range. *)
Definition sibling_satisfies (pkg : Package) (dependency : string) : Prop :=
  ∃ sibling, sibling ∈ packages this ∧ name sibling = dependency
             ∧ dependencyMatches pkg sibling = true.

(** The installed copy of [dependency] has a readable manifest whose
    version satisfies the range that [pkg] declares. *)
Definition installed_satisfies (st : State World) (pkg : Package) (dependency : string)
    : Prop :=
  ∃ pj, require_view st (installed_manifest pkg dependency) = inr pj
        ∧ semver_satisfies (pj_version pj) (allDependencies pkg !! dependency) = true.

(** The events of the linking of one pair: the reset of the target, its
    creation, and the events of the files. *)
Definition pair_event (src dest name : string) (ev : Event) : Prop :=
  (∃ r, ev = EvRimraf dest r) ∨ (∃ r, ev = EvMkdirp dest r)
  ∨ link_event src dest name ev.

(** The events of the iteration over one candidate: the evaluation of the
    compatibility, the warning, and the events of the linking of the pair. *)
Definition candidate_event (pkg dependency : Package) (ev : Event) : Prop :=
  (∃ a e r, ev = EvSatisfies a e r) ∨ (∃ msg, ev = EvWarning msg)
  ∨ pair_event (location dependency)
      (path_join [nodeModulesLocation pkg; name dependency]) (name dependency) ev.

(** The decision of the second filter of [installExternalPackages]: the
    installed copy is readable and its version satisfies the range. *)
Definition installed_ok (st : State World) (pkg : Package) (dependency : string) : bool :=
  match require_view st (installed_manifest pkg dependency) with
  | inr pj => semver_satisfies (pj_version pj) (allDependencies pkg !! dependency)
  | inl _ => false
  end.

(** The decision of the first filter: the first package of that name
    matches. *)
Definition linked_locally (pkg : Package) (dependency : string) : bool :=
  match List.find (λ p, bool_decide (name p = dependency)) (packages this) with
  | Some match_ => dependencyMatches pkg match_
  | None => false
  end.

(** The names handed to the external installer. *)
Definition external_names (st : State World) (pkg : Package) : list string :=
  List.filter (λ dependency, negb (installed_ok st pkg dependency))
    (List.filter (λ dependency, negb (linked_locally pkg dependency))
       (Object_keys (allDependencies pkg))).

(** The specification [name@range] of a dependency. *)
Definition install_spec (pkg : Package) (dependency : string) : string :=
  dependency +:+ "@" +:+ js_to_string (allDependencies pkg !! dependency).

(** The number of evaluations of the compatibility of [actual] with
    [expected] among some events. *)
Definition compat_checks (actual expected : option string) (evs : list Event) : nat :=
  length (List.filter
            (λ ev, match ev with
                   | EvSatisfies a e _ =>
                       bool_decide (a = actual) && bool_decide (e = expected)
                   | _ => false
                   end) evs).

(** [clean m]: when [m] reports success, no operation that it issued
    failed. *)
Definition clean (m : M World (option Error)) : Prop :=
  triple m (λ r evs, r = Returned None → Forall fs_ok evs).

End Observables.

(** * More observables: kinds of events, counts, phases *)

Section Phases.
Context {World : Type} `{!Env World}.
Variable build : Build.
Variable this : Command.

(** The number of events of a kind. *)
Definition count_events (kind : Event → bool) (evs : list Event) : nat :=
  length (List.filter kind evs).

Definition is_warning (ev : Event) : bool :=
  match ev with EvWarning _ => true | _ => false end.

Definition is_install (ev : Event) : bool :=
  match ev with EvInstallInDir _ _ _ => true | _ => false end.

Definition is_tick (ev : Event) : bool :=
  match ev with EvProgressTick _ => true | _ => false end.

Definition is_success (ev : Event) : bool :=
  match ev with EvSuccess _ => true | _ => false end.

Definition is_glob (ev : Event) : bool :=
  match ev with EvGlob _ _ _ => true | _ => false end.

(** The operations by which a sibling is linked: the reset of the target,
    the globs, the writes and the symbolic links. *)
Definition is_link_operation (ev : Event) : bool :=
  match ev with
  | EvRimraf _ _ | EvWriteFile _ _ _ | EvSymlink _ _ _ | EvGlob _ _ _ => true
  | _ => false
  end.

(** [dependency] is declared by [pkg] with a range that is not empty and
    that its version does not satisfy: the case in which
    [hasMatchingDependency] reaches its warning. *)
Definition mismatched (pkg dependency : Package) : bool :=
  negb (js_falsy (allDependencies pkg !! name dependency))
  && negb (semver_satisfies (Some (version dependency))
             (allDependencies pkg !! name dependency)).

(** The events of the first two tasks of a pipeline: the creation of the
    dependency directory and the installation of the external packages. *)
Definition install_phase_event (pkg : Package) (ev : Event) : Prop :=
  match ev with
  | EvMkdirp p _ => p = nodeModulesLocation pkg
  | EvRequire p _ => ∃ dependency, p = installed_manifest pkg dependency
  | EvSatisfies _ _ _ => True
  | EvInstallInDir dir _ _ => dir = location pkg
  | _ => False
  end.

(** The events of the third task of a pipeline: the iterations over the
    candidates. *)
Definition link_phase_event (pkg : Package) (ev : Event) : Prop :=
  ∃ candidate, candidate ∈ packages this ∧ candidate_event build this pkg candidate ev.

(** The patterns that [createLinkedDependencyFiles] expands for a manifest:
    [lerna.files], when there are, then the main entry. *)
Definition linked_patterns (pkg : PackageJson) : list (option string) :=
  default [] (pj_lerna_files pkg) ++ [pj_main pkg].

(** The calls of [glob] for some patterns, in a world. *)
Definition glob_events (cwd : string) (w : World) (patterns : list (option string))
    : list Event :=
  map (λ pattern, EvGlob pattern cwd (glob pattern cwd w)) patterns.

(** The manifest object after [linkFiles.push(pkg.main)]: the array
    [lerna.files] of the manifest, when there is one, has one more element. *)
Definition after_push (pkg : PackageJson) : PackageJson :=
  match pj_lerna_files pkg with
  | Some files =>
      {| pj_version := pj_version pkg; pj_main := pj_main pkg;
         pj_lerna_files := Some (files ++ [pj_main pkg]) |}
  | None => pkg
  end.

(** The reset of a link target, the first operation of
    [createLinkedDependency]. *)
Definition is_reset (ev : Event) : bool :=
  match ev with EvRimraf _ _ => true | _ => false end.

(** [ev] is the reset of the target of the link of [candidate] into the
    dependency directory of [pkg]. *)
Definition resets_target (pkg candidate : Package) (ev : Event) : Prop :=
  ∃ r, ev = EvRimraf (path_join [nodeModulesLocation pkg; name candidate]) r.



(** The message of [execute] on success. *)
Definition success_message : string :=
  "Successfully bootstrapped " +:+ pretty (length (packages this)) +:+ " packages.".

End Phases.

(** * Lemmas *)

(** ** JSON strings *)

Lemma json_unescape_escape_char (c : ascii) (rest : string) :
  json_unescape Plain (json_escape_char c +:+ rest)
  = String c <$> json_unescape Plain rest.
Proof.
  destruct c as [[] [] [] [] [] [] [] []]; reflexivity.
Qed.

Lemma string_append_assoc (a b c : string) :
  (a +:+ b) +:+ c = a +:+ (b +:+ c).
Proof.
  induction a as [|x a IH]; [reflexivity|].
  change (String x ((a +:+ b) +:+ c) = String x (a +:+ (b +:+ c))).
  f_equal. exact IH.
Qed.

Lemma json_unescape_escape (s : string) :
  json_unescape Plain (json_escape s +:+ dquote) = Some s.
Proof.
  induction s as [|c s IH]; [reflexivity|].
  cbn [json_escape].
  rewrite string_append_assoc, json_unescape_escape_char, IH. reflexivity.
Qed.

Lemma JSON_parse_stringify (s : string) :
  JSON_parse_string (JSON_stringify_string s) = Some s.
Proof.
  unfold JSON_parse_string, JSON_stringify_string. cbn.
  apply json_unescape_escape.
Qed.

(** ** Reasoning about runs: what a computation appends to the trace *)

Section Logic.
Context {World : Type}.
Local Abbreviation M := (M World).

Lemma run_ret {A} (a : A) (st : State World) : (mret a : M A) st = (Returned a, st).
Proof. reflexivity. Qed.

Lemma run_bind {A B} (m : M A) (k : A → M B) (st : State World) :
  (m ≫= k) st = match m st with
                | (Returned a, st') => k a st'
                | (Thrown e, st') => (Thrown e, st')
                end.
Proof. reflexivity. Qed.

Lemma triple_conseq {A} (m : M A) (P Q : Outcome A → list Event → Prop) :
  triple m P → (∀ r evs, P r evs → Q r evs) → triple m Q.
Proof. intros Hm HPQ st. destruct (Hm st) as (evs & ? & ?). eauto. Qed.

Lemma triple_ret {A} (a : A) (Q : Outcome A → list Event → Prop) :
  Q (Returned a) [] → triple (mret a : M A) Q.
Proof. intros HQ st. exists []. rewrite run_ret, app_nil_r. done. Qed.

Lemma triple_bind {A B} (m : M A) (k : A → M B)
    (P : Outcome A → list Event → Prop) (Q : Outcome B → list Event → Prop) :
  triple m P →
  (∀ a evs1, P (Returned a) evs1 → triple (k a) (λ r evs2, Q r (evs1 ++ evs2))) →
  (∀ e evs1, P (Thrown e) evs1 → Q (Thrown e) evs1) →
  triple (m ≫= k) Q.
Proof.
  intros Hm Hk He st. rewrite run_bind.
  destruct (Hm st) as (evs1 & Htr & HP).
  destruct (m st) as [[a|e] st1]; simpl in *.
  - destruct (Hk a evs1 HP st1) as (evs2 & Htr2 & HQ).
    exists (evs1 ++ evs2). rewrite Htr2, Htr, app_assoc. done.
  - exists evs1. eauto.
Qed.

Lemma triple_log (ev : Event) (Q : Outcome unit → list Event → Prop) :
  Q (Returned ()) [ev] → triple (log ev : M unit) Q.
Proof. intros HQ st. exists [ev]. done. Qed.

Lemma triple_call {R} (f : World → R * World) (ev : R → Event)
    (Q : Outcome R → list Event → Prop) :
  (∀ r, Q (Returned r) [ev r]) → triple (call f ev) Q.
Proof.
  intros HQ st. unfold call. destruct (f (world st)) as [r w].
  exists [ev r]. split; [reflexivity | apply HQ].
Qed.

Lemma triple_try_catch {A} (m : M A) (handler : Error → M A)
    (P Q : Outcome A → list Event → Prop) :
  triple m P →
  (∀ a evs, P (Returned a) evs → Q (Returned a) evs) →
  (∀ e evs1, P (Thrown e) evs1 → triple (handler e) (λ r evs2, Q r (evs1 ++ evs2))) →
  triple (try_catch m handler) Q.
Proof.
  intros Hm Hr Hh st. unfold try_catch.
  destruct (Hm st) as (evs1 & Htr & HP).
  destruct (m st) as [[a|e] st1]; simpl in *.
  - exists evs1. eauto.
  - destruct (Hh e evs1 HP st1) as (evs2 & Htr2 & HQ).
    exists (evs1 ++ evs2). rewrite Htr2, Htr, app_assoc. done.
Qed.

Lemma emits_impl {A} (φ ψ : Event → Prop) (m : M A) :
  (∀ ev, φ ev → ψ ev) → emits φ m → emits ψ m.
Proof.
  intros Himpl Hm. eapply triple_conseq; [exact Hm|].
  intros r evs H; simpl in *. eapply Forall_impl; eauto.
Qed.

Lemma emits_ret {A} φ (a : A) : emits φ (mret a : M A).
Proof. apply triple_ret. constructor. Qed.

Lemma emits_bind {A B} φ (m : M A) (k : A → M B) :
  emits φ m → (∀ a, emits φ (k a)) → emits φ (m ≫= k).
Proof.
  intros Hm Hk. eapply triple_bind; [exact Hm| |]; simpl.
  - intros a evs1 H1. eapply triple_conseq; [apply Hk|].
    intros r evs2 H2; simpl in *. by apply Forall_app.
  - done.
Qed.

Lemma emits_log φ (ev : Event) : φ ev → emits φ (log ev : M unit).
Proof. intros. apply triple_log. by repeat constructor. Qed.

Lemma emits_call {R} φ (f : World → R * World) (ev : R → Event) :
  (∀ r, φ (ev r)) → emits φ (call f ev).
Proof. intros. apply triple_call. intros r. by repeat constructor. Qed.

Lemma emits_try_catch {A} φ (m : M A) (handler : Error → M A) :
  emits φ m → (∀ e, emits φ (handler e)) → emits φ (try_catch m handler).
Proof.
  intros Hm Hh. eapply triple_try_catch; [exact Hm| |]; simpl.
  - done.
  - intros e evs1 H1. eapply triple_conseq; [apply Hh|].
    intros r evs2 H2; simpl in *. by apply Forall_app.
Qed.

Lemma emits_series φ (tasks : list (M (option Error))) :
  Forall (emits φ) tasks → emits φ (async_series tasks).
Proof.
  induction 1 as [|task tasks Ht _ IH]; [apply emits_ret|].
  cbn [async_series]. apply emits_bind; [done|].
  intros [e|]; [apply emits_ret | done].
Qed.

Lemma emits_each {A} φ (arr : list A) (iterator : A → M (option Error)) :
  (∀ x, x ∈ arr → emits φ (iterator x)) → emits φ (async_each arr iterator).
Proof.
  induction arr as [|x arr IH]; intros Hit; [apply emits_ret|].
  cbn [async_each]. apply emits_bind; [apply Hit; left|].
  intros err. apply emits_bind; [|intros; apply emits_ret].
  apply IH. intros y Hy. apply Hit. by right.
Qed.

Lemma emits_map {A B} φ (arr : list A) (iterator : A → M (Error + B)) :
  (∀ x, x ∈ arr → emits φ (iterator x)) → emits φ (async_map arr iterator).
Proof.
  induction arr as [|x arr IH]; intros Hit; [apply emits_ret|].
  cbn [async_map]. apply emits_bind; [apply Hit; left|].
  intros r. apply emits_bind; [|intros; apply emits_ret].
  apply IH. intros y Hy. apply Hit. by right.
Qed.

Lemma emits_waterfall {A} φ (first : M (Error + A)) (second : A → M (option Error)) :
  emits φ first → (∀ a, emits φ (second a)) → emits φ (async_waterfall first second).
Proof.
  intros H1 H2. apply emits_bind; [done|].
  intros [e|a]; [apply emits_ret | apply H2].
Qed.

Lemma emits_run_started φ (tasks : list (M (option Error))) :
  Forall (emits φ) tasks → emits φ (run_started tasks).
Proof.
  induction 1 as [|task tasks Ht _ IH]; [apply emits_ret|].
  cbn [run_started]. by apply emits_bind.
Qed.

Lemma emits_parallelLimit φ (tasks : list (M (option Error))) (limit : nat) :
  Forall (emits φ) tasks → emits φ (async_parallelLimit tasks limit).
Proof.
  destruct limit as [|others]; [intros; apply emits_ret|].
  cbn [async_parallelLimit].
  induction 1 as [|task tasks Ht Hts IH]; [apply emits_ret|].
  cbn [parallelLimit_pool]. apply emits_bind; [done|].
  intros [e|]; [|done].
  apply emits_bind; [|intros; apply emits_ret].
  apply emits_run_started. by apply Forall_take.
Qed.

Lemma emits_filter {A} φ (p : A → M bool) (arr : list A) :
  (∀ x, x ∈ arr → emits φ (p x)) → emits φ (array_filter p arr).
Proof.
  induction arr as [|x arr IH]; intros Hp; [apply emits_ret|].
  cbn [array_filter]. apply emits_bind; [apply Hp; left|].
  intros keep. apply emits_bind; [|intros; apply emits_ret].
  apply IH. intros y Hy. apply Hp. by right.
Qed.

End Logic.

(** ** One matched file *)

Section MatchedFile.
Context {World : Type} `{!Env World}.
Local Abbreviation M := (M World).

Lemma materialize_run (prefix src dest file : string) (st : State World) :
  ∃ r w,
    materialize prefix src dest file st
    = (Returned (materialize_result file r),
       mkState w (modules st) (trace st ++ [materialize_event prefix src dest file r]))
    ∧ (r, w) = (if decide (path_extname file = ".js")
                then FileSystemUtilities_writeFile (path_join [dest; file])
                       (proxy_content prefix src file) (world st)
                else symlink (path_join [src; file]) (path_join [dest; file]) (world st)).
Proof.
  unfold materialize, materialize_event, materialize_result.
  destruct (decide (path_extname file = ".js")) as [Hjs|Hjs].
  - unfold writeFile, call.
    destruct (FileSystemUtilities_writeFile _ _ _) as [r w]. by exists r, w.
  - rewrite run_bind. unfold fs_symlink, call.
    destruct (symlink _ _ _) as [r w]. exists r, w.
    destruct r as [e|]; [|done].
    destruct (decide (code e = Some "EEXIST")); done.
Qed.

Lemma linkFile_run (prefix src dest file : string) (st : State World) :
  let dir := path_dirname (path_join [dest; file]) in
  match FileSystemUtilities_mkdirp dir (world st) with
  | (Some e, w) =>
      linkFile prefix src dest file st
      = (Returned (Some e), mkState w (modules st) (trace st ++ [EvMkdirp dir (Some e)]))
  | (None, w) =>
      ∃ r w',
        linkFile prefix src dest file st
        = (Returned (materialize_result file r),
           mkState w' (modules st)
             (trace st ++ [EvMkdirp dir None; materialize_event prefix src dest file r]))
        ∧ (r, w') = (if decide (path_extname file = ".js")
                     then FileSystemUtilities_writeFile (path_join [dest; file])
                            (proxy_content prefix src file) w
                     else symlink (path_join [src; file]) (path_join [dest; file]) w)
  end.
Proof.
  intros dir.
  assert (Hstep : linkFile prefix src dest file st
    = let '(made, w) := FileSystemUtilities_mkdirp dir (world st) in
      let st1 := mkState w (modules st) (trace st ++ [EvMkdirp dir made]) in
      match made with
      | Some e => (Returned (Some e), st1)
      | None =>
          match materialize prefix src dest file st1 with
          | (Returned (Some e), st2) => (Returned (Some e), st2)
          | (Returned None, st2) => (Returned None, st2)
          | (Thrown e, st2) => (Thrown e, st2)
          end
      end).
  { unfold linkFile. fold dir. cbn [async_series].
    rewrite run_bind. unfold mkdirp at 1, call.
    destruct (FileSystemUtilities_mkdirp dir (world st)) as [[e|] w]; [done|].
    rewrite run_bind.
    destruct (materialize _ _ _ _ _) as [[[e|]|e] st2]; reflexivity. }
  rewrite Hstep. clear Hstep.
  destruct (FileSystemUtilities_mkdirp dir (world st)) as [[e|] w]; [done|].
  cbv zeta.
  destruct (materialize_run prefix src dest file
              (mkState w (modules st) (trace st ++ [EvMkdirp dir None])))
    as (r & w' & Hrun & Hop).
  rewrite Hrun. exists r, w'. split; [|exact Hop].
  cbn [trace modules]. rewrite <- app_assoc. cbn [app].
  destruct (materialize_result file r); reflexivity.
Qed.

End MatchedFile.

(** ** Linking one sibling *)

Section Linking.
Context {World : Type} `{!Env World}.
Variable build : Build.
Variable this : Command.
Local Abbreviation M := (M World).

Lemma require_run (p : string) (st : State World) :
  require p st
  = match require_view st p with
    | inr pj =>
        (Returned pj,
         mkState (world st) (<[p:=pj]> (modules st)) (trace st ++ [EvRequire p (inr pj)]))
    | inl e =>
        (Thrown e, mkState (world st) (modules st) (trace st ++ [EvRequire p (inl e)]))
    end.
Proof.
  unfold require, require_view.
  destruct (modules st !! p); [done|]. by destruct (load_json p (world st)).
Qed.

Lemma emits_require φ (p : string) :
  (∀ r, φ (EvRequire p r)) → emits φ (require p : M PackageJson).
Proof.
  intros Hφ st. rewrite require_run.
  destruct (require_view st p) as [e|pj]; eexists [_]; split; try done;
    by repeat constructor.
Qed.

Lemma emits_set_module φ (p : string) (pj : PackageJson) :
  emits φ (set_module p pj : M unit).
Proof. intros st. exists []. cbn. rewrite app_nil_r. split; [done|constructor]. Qed.

Lemma emits_run_glob φ (pattern : option string) (cwd : string) :
  (∀ r, φ (EvGlob pattern cwd r)) → emits φ (run_glob pattern cwd : M _).
Proof. intros Hφ st. eexists [_]. split; [done|]. by repeat constructor. Qed.

Lemma link_event_materialize (src dest name file : string) (r : option Error) :
  link_event build this src dest name (materialize_event (configured_prefix this) src dest file r).
Proof.
  unfold materialize_event.
  destruct (decide (path_extname file = ".js")); cbn; [left|]; eauto.
Qed.

Lemma emits_linkFile (src dest name file : string) :
  emits (link_event build this src dest name) (linkFile (configured_prefix this) src dest file).
Proof.
  intros st.
  pose proof (linkFile_run (configured_prefix this) src dest file st) as Hrun.
  cbv zeta in Hrun.
  destruct (FileSystemUtilities_mkdirp _ (world st)) as [[e|] w].
  - rewrite Hrun. eexists [_]. split; [done|].
    repeat constructor. cbn. eauto.
  - destruct Hrun as (r & w' & -> & _). eexists [_; _]. split; [done|].
    repeat constructor; [cbn; eauto | apply link_event_materialize].
Qed.

Lemma emits_linkFiles_of φ (p : string) (pkg : PackageJson) :
  emits φ (linkFiles_of p pkg : M _).
Proof.
  unfold linkFiles_of. destruct (pj_lerna_files pkg); [|apply emits_ret].
  apply emits_bind; [apply emits_set_module | intros; apply emits_ret].
Qed.

Lemma emits_createLinkedDependencyFiles (src dest name : string) :
  emits (link_event build this src dest name) (createLinkedDependencyFiles build this src dest name).
Proof.
  unfold createLinkedDependencyFiles.
  apply emits_bind; [by apply emits_require|]. intros pkg.
  apply emits_bind; [apply emits_linkFiles_of|]. intros linkFiles.
  apply emits_each. intros task Htask.
  apply list_elem_of_In in Htask. destruct Htask as [<-|[<-|[]]].
  - apply emits_waterfall.
    + apply emits_map. intros. by apply emits_run_glob.
    + intros files. apply emits_each. intros file _. apply emits_linkFile.
  - apply emits_call. intros r. cbn. right. eauto.
Qed.

End Linking.

(** ** Runs that return *)

Section Returned.
Context {World : Type}.
Local Abbreviation M := (M World).

Lemma bind_returned {A B} (m : M A) (k : A → M B) (st st' : State World) (b : B) :
  (m ≫= k) st = (Returned b, st') →
  ∃ a st1, m st = (Returned a, st1) ∧ k a st1 = (Returned b, st').
Proof.
  rewrite run_bind. destruct (m st) as [[a|e] st1]; [eauto | done].
Qed.

Lemma triple_trace {A} (m : M A) (Q : Outcome A → list Event → Prop)
    (st st' : State World) (r : Outcome A) :
  triple m Q → m st = (r, st') → ∃ evs, trace st' = trace st ++ evs ∧ Q r evs.
Proof. intros Hm Hrun. specialize (Hm st). by rewrite Hrun in Hm. Qed.

(** Every iteration of [async.each] is run when the whole returns. *)
Lemma async_each_returned_elem {A} (arr : list A) (iterator : A → M (option Error))
    (x : A) (st st' : State World) (r : option Error) :
  (∀ y, emits (λ _, True) (iterator y)) →
  x ∈ arr →
  async_each arr iterator st = (Returned r, st') →
  ∃ s1 s2 rx pre post,
    iterator x s1 = (Returned rx, s2)
    ∧ trace s1 = trace st ++ pre ∧ trace st' = trace s2 ++ post.
Proof.
  intros Hgrow Hx. revert st r.
  induction arr as [|y arr IH]; intros st r Hrun; [by apply elem_of_nil in Hx|].
  cbn [async_each] in Hrun.
  apply bind_returned in Hrun as (ry & s2 & Hy & Hrun).
  apply bind_returned in Hrun as (rest & s3 & Hrest & Hrun).
  rewrite run_ret in Hrun. injection Hrun as _ <-.
  apply elem_of_cons in Hx as [->|Hx].
  - destruct (triple_trace _ _ _ _ _ (emits_each _ arr iterator (λ z _, Hgrow z)) Hrest)
      as (post & Hpost & _).
    exists st, s2, ry, [], post. by rewrite app_nil_r.
  - destruct (IH Hx _ _ Hrest) as (s1 & s2' & rx & pre & post & Hit & Hpre & Hpost).
    destruct (triple_trace _ _ _ _ _ (Hgrow y) Hy) as (evy & Hevy & _).
    exists s1, s2', rx, (evy ++ pre), post.
    split; [done|]. split; [|done]. by rewrite Hpre, Hevy, app_assoc.
Qed.

(** [async.each] succeeds exactly when every iteration does. *)
Lemma async_each_none {A} (arr : list A) (iterator : A → M (option Error))
    (φ : Event → Prop) :
  (∀ x, x ∈ arr → triple (iterator x) (λ r evs, r = Returned None → Forall φ evs)) →
  triple (async_each arr iterator) (λ r evs, r = Returned None → Forall φ evs).
Proof.
  induction arr as [|x arr IH]; intros Hit.
  - apply triple_ret. constructor.
  - cbn [async_each].
    eapply triple_bind; [apply Hit; left| |done].
    intros err evs1 H1; simpl in *.
    eapply triple_bind; [apply IH; intros y Hy; apply Hit; by right| |done].
    intros rest evs2 H2; simpl in *.
    apply triple_ret. rewrite app_nil_r.
    intros Hnone. destruct err as [e|]; [done|].
    injection Hnone as ->. apply Forall_app. split; [by apply H1 | by apply H2].
Qed.

(** [async.series] succeeds exactly when every task does. *)
Lemma async_series_none (tasks : list (M (option Error))) (φ : Event → Prop) :
  Forall (λ task, triple task (λ r evs, r = Returned None → Forall φ evs)) tasks →
  triple (async_series tasks) (λ r evs, r = Returned None → Forall φ evs).
Proof.
  induction 1 as [|task tasks Ht _ IH].
  - apply triple_ret. constructor.
  - cbn [async_series].
    eapply triple_bind; [exact Ht| |done].
    intros [e|] evs1 H1; simpl in *.
    + apply triple_ret. done.
    + eapply triple_conseq; [exact IH|].
      intros r evs2 H2 Hnone; simpl in *. apply Forall_app. split; [by apply H1 | by apply H2].
Qed.

End Returned.

(** ** Eligibility and the candidates of one package *)

Section Candidates.
Context {World : Type} `{!Env World}.
Variable build : Build.
Variable this : Command.
Local Abbreviation M := (M World).

Lemma state_eta (st : State World) :
  mkState (world st) (modules st) (trace st) = st.
Proof. by destruct st. Qed.

Lemma hasMatchingDependency_run (pkg dependency : Package) (showWarning : bool)
    (st : State World) :
  hasMatchingDependency pkg dependency showWarning st
  = (Returned (dependencyMatches pkg dependency),
     mkState (world st) (modules st)
       (trace st ++ matching_events pkg dependency showWarning)).
Proof.
  unfold hasMatchingDependency, dependencyMatches, matching_events.
  destruct (js_falsy (allDependencies pkg !! name dependency)).
  - rewrite run_ret, app_nil_r, state_eta. reflexivity.
  - rewrite run_bind. unfold isCompatableVersion. rewrite run_bind. cbn.
    destruct (semver_satisfies _ _); [reflexivity|].
    destruct showWarning; rewrite run_bind; unfold log; cbn;
      rewrite ?run_ret, <- ?app_assoc; reflexivity.
Qed.

Lemma matching_events_no_reset (pkg dependency : Package) (showWarning : bool)
    (p : string) (r : option Error) :
  EvRimraf p r ∉ matching_events pkg dependency showWarning.
Proof.
  unfold matching_events.
  destruct (js_falsy _); [apply not_elem_of_nil|].
  destruct (semver_satisfies _ _); [|destruct showWarning];
    intros Hin; repeat (apply elem_of_cons in Hin as [?|Hin]; [done|]);
    by apply elem_of_nil in Hin.
Qed.

Lemma emits_hasMatchingDependency φ (pkg dependency : Package) (showWarning : bool) :
  (∀ a e r, φ (EvSatisfies a e r)) → (∀ msg, φ (EvWarning msg)) →
  emits φ (hasMatchingDependency pkg dependency showWarning : M bool).
Proof.
  intros Hs Hw st. rewrite hasMatchingDependency_run.
  eexists. split; [reflexivity|]. cbn. unfold matching_events.
  destruct (js_falsy _); [constructor|].
  destruct (semver_satisfies _ _); [|destruct showWarning]; by repeat constructor.
Qed.

Lemma hasDependencyInstalled_run (pkg : Package) (dependency : string)
    (st : State World) :
  let p := installed_manifest pkg dependency in
  hasDependencyInstalled pkg dependency st
  = match require_view st p with
    | inr pj =>
        let ok := semver_satisfies (pj_version pj) (allDependencies pkg !! dependency) in
        (Returned ok,
         mkState (world st) (<[p:=pj]> (modules st))
           (trace st ++ [EvRequire p (inr pj);
                         EvSatisfies (pj_version pj) (allDependencies pkg !! dependency) ok]))
    | inl e =>
        (Returned false,
         mkState (world st) (modules st) (trace st ++ [EvRequire p (inl e)]))
    end.
Proof.
  intros p. unfold hasDependencyInstalled, try_catch. fold (installed_manifest pkg dependency).
  fold p. rewrite run_bind, require_run.
  destruct (require_view st p) as [e|pj]; [reflexivity|].
  unfold isCompatableVersion. rewrite run_bind. cbn. by rewrite <- app_assoc.
Qed.

Lemma createLinkedDependencyFiles_throws (src dest name : string) (st : State World)
    (e : Error) :
  require_view st (path_join [src; "package.json"]) = inl e →
  createLinkedDependencyFiles build this src dest name st
  = (Thrown e,
     mkState (world st) (modules st)
       (trace st ++ [EvRequire (path_join [src; "package.json"]) (inl e)])).
Proof.
  intros Hview. unfold createLinkedDependencyFiles.
  rewrite run_bind, require_run, Hview. reflexivity.
Qed.

Lemma emits_createLinkedDependency (src dest name : string) :
  emits (pair_event build this src dest name) (createLinkedDependency build this src dest name).
Proof.
  unfold createLinkedDependency, rimraf, mkdirp.
  apply emits_bind; [apply emits_call; intros r; left; eauto|].
  intros [e|]; [apply emits_ret|].
  apply emits_bind; [apply emits_call; intros r; right; left; eauto|].
  intros [e|]; [apply emits_ret|].
  eapply emits_impl; [|apply emits_createLinkedDependencyFiles].
  intros ev Hev. right. by right.
Qed.

Lemma createLinkedDependency_reset (src dest name : string) (st : State World) :
  ∃ r evs,
    trace (createLinkedDependency build this src dest name st).2
    = trace st ++ EvRimraf dest r :: evs.
Proof.
  unfold createLinkedDependency. rewrite run_bind. unfold rimraf at 1, call.
  destruct (FileSystemUtilities_rimraf dest (world st)) as [[e|] w].
  - by exists (Some e), [].
  - exists None.
    match goal with |- context [mbind ?k ?m ?s] => set (st1 := s); set (rest := mbind k m) end.
    assert (Hrest : emits (λ _, True) rest).
    { subst rest. unfold mkdirp.
      apply emits_bind; [by apply emits_call|].
      intros [e|]; [apply emits_ret|].
      eapply emits_impl; [|apply emits_createLinkedDependencyFiles]. done. }
    destruct (Hrest st1) as (evs & -> & _). exists evs.
    subst st1. cbn. by rewrite <- app_assoc.
Qed.

Lemma linkCandidate_run (pkg dependency : Package) (st : State World) :
  let st1 := mkState (world st) (modules st)
               (trace st ++ matching_events pkg dependency true) in
  linkCandidate build this pkg dependency st
  = if dependencyMatches pkg dependency
    then createLinkedDependency build this (location dependency)
           (path_join [nodeModulesLocation pkg; name dependency]) (name dependency) st1
    else (Returned None, st1).
Proof.
  intros st1. unfold linkCandidate.
  rewrite run_bind, hasMatchingDependency_run. fold st1.
  by destruct (dependencyMatches pkg dependency).
Qed.

Lemma emits_linkCandidate (pkg dependency : Package) :
  emits (λ _, True) (linkCandidate build this pkg dependency).
Proof.
  unfold linkCandidate.
  apply emits_bind; [by apply emits_hasMatchingDependency|].
  intros matching. destruct (negb matching); [apply emits_ret|].
  eapply emits_impl; [|apply emits_createLinkedDependency]. done.
Qed.

Lemma emits_candidate_events (pkg dependency : Package) :
  emits (candidate_event build this pkg dependency)
    (linkCandidate build this pkg dependency).
Proof.
  unfold linkCandidate.
  apply emits_bind.
  { apply emits_hasMatchingDependency.
    - intros a e r. left. eauto.
    - intros msg. right. left. eauto. }
  intros matching. destruct (negb matching); [apply emits_ret|].
  eapply emits_impl; [|apply emits_createLinkedDependency].
  intros ev Hev. right. by right.
Qed.

Lemma matching_events_checks (pkg dependency : Package) (showWarning : bool)
    (actual expected : option string) :
  (compat_checks actual expected (matching_events pkg dependency showWarning) ≤ 1)%nat.
Proof.
  unfold matching_events, compat_checks.
  destruct (js_falsy _); [cbn; lia|].
  destruct (semver_satisfies _ _); [|destruct showWarning]; cbn;
    destruct (_ && _); cbn; lia.
Qed.

(** A candidate is linked exactly when [hasMatchingDependency] holds. *)
Lemma linkCandidate_attempt_iff (pkg dependency : Package) (st : State World) :
  ∃ evs,
    trace (linkCandidate build this pkg dependency st).2 = trace st ++ evs
    ∧ (link_attempted pkg dependency evs ↔ dependencyMatches pkg dependency = true).
Proof.
  rewrite linkCandidate_run. cbv zeta.
  destruct (dependencyMatches pkg dependency) eqn:Hm.
  - match goal with |- context [createLinkedDependency _ _ ?s ?d ?n ?s1] =>
      destruct (createLinkedDependency_reset s d n s1) as (r & evs & ->) end.
    cbn [trace]. eexists. split; [by rewrite <- app_assoc|].
    split; [done|]. intros _. exists r. rewrite elem_of_app. right. left.
  - eexists. split; [reflexivity|]. split; [|done].
    intros [r Hin]. by apply matching_events_no_reset in Hin.
Qed.

(** Every candidate that matches is linked in a link phase that returns. *)
Lemma linkDependenciesForPackage_links (pkg dependency : Package)
    (st st' : State World) (r : option Error) :
  dependency ∈ packages this →
  dependencyMatches pkg dependency = true →
  linkDependenciesForPackage build this pkg st = (Returned r, st') →
  ∃ evs, trace st' = trace st ++ evs ∧ link_attempted pkg dependency evs.
Proof.
  intros Hin Hm Hrun. unfold linkDependenciesForPackage in Hrun.
  destruct (async_each_returned_elem _ _ dependency _ _ _
              (emits_linkCandidate pkg) Hin Hrun)
    as (s1 & s2 & rx & pre & post & Hit & Hpre & Hpost).
  destruct (linkCandidate_attempt_iff pkg dependency s1) as (evs & Htr & Hiff).
  rewrite Hit in Htr. cbn in Htr.
  exists (pre ++ evs ++ post). split.
  - rewrite Hpost, Htr, Hpre. by rewrite <- !app_assoc.
  - destruct (proj2 Hiff Hm) as [r0 Hr0]. exists r0.
    rewrite !elem_of_app. right. by left.
Qed.

End Candidates.

(** ** The generated manifest *)

Section Manifest.
Context {World : Type} `{!Env World}.
Variable build : Build.
Variable this : Command.
Local Abbreviation M := (M World).

Lemma linkFiles_of_trace (p : string) (pkg : PackageJson) (st : State World) :
  ∃ linkFiles st',
    linkFiles_of p pkg st = (Returned linkFiles, st')
    ∧ trace st' = trace st ∧ world st' = world st.
Proof.
  unfold linkFiles_of. destruct (pj_lerna_files pkg); eexists _, _; split; done.
Qed.

Lemma createLinkedDependencyFiles_manifest (src dest name : string)
    (st st' : State World) (r : option Error) :
  createLinkedDependencyFiles build this src dest name st = (Returned r, st') →
  ∃ pkg w evs,
    require_view st (path_join [src; "package.json"]) = inr pkg
    ∧ trace st' = trace st ++ evs
    ∧ EvWriteFile (path_join [dest; "package.json"])
        (JSON_stringify_object (manifest_object build name pkg) "  ") w ∈ evs.
Proof.
  intros Hrun. unfold createLinkedDependencyFiles in Hrun.
  apply bind_returned in Hrun as (pkg & s1 & Hreq & Hrun).
  rewrite require_run in Hreq.
  destruct (require_view st _) as [e|pkg'] eqn:Hview; [done|].
  injection Hreq as Hpkg Hs1. subst pkg s1.
  apply bind_returned in Hrun as (linkFiles & s2 & Hlf & Hrun).
  match type of Hlf with linkFiles_of ?p ?k ?s = _ =>
    destruct (linkFiles_of_trace p k s) as (l' & s2' & Hlf' & Htr2 & _) end.
  rewrite Hlf in Hlf'. injection Hlf' as <- <-.
  unfold async_parallel in Hrun. cbn [async_each] in Hrun.
  apply bind_returned in Hrun as (e1 & s3 & Hfiles & Hrun).
  apply bind_returned in Hrun as (rest & s4 & Hrest & Hrun).
  rewrite run_ret in Hrun. injection Hrun as _ <-.
  apply bind_returned in Hrest as (e2 & s5 & Hwrite & Hrest).
  rewrite run_bind, !run_ret in Hrest. injection Hrest as _ <-.
  unfold writeFile, call in Hwrite.
  destruct (FileSystemUtilities_writeFile _ _ (world s3)) as [w w3].
  injection Hwrite as <- <-.
  assert (∃ evs, trace s3 = trace s2 ++ evs) as [evs Hevs].
  { eapply triple_trace in Hfiles as (evs & Hevs & _); [by exists evs|].
    apply (emits_waterfall (λ _, True)).
    - apply emits_map. intros. by apply emits_run_glob.
    - intros files. apply emits_each. intros file _.
      eapply emits_impl; [|apply (emits_linkFile build this src dest name)]. done. }
  exists pkg', w,
    (EvRequire (path_join [src; "package.json"]) (inr pkg') :: evs
     ++ [EvWriteFile (path_join [dest; "package.json"])
           (JSON_stringify_object (manifest_object build name pkg') "  ") w]).
  split; [done|]. split.
  - cbn [trace]. rewrite Hevs, Htr2. cbn [trace].
    rewrite <- !app_assoc. reflexivity.
  - apply elem_of_cons. right. apply elem_of_app. right. apply list_elem_of_singleton.
    reflexivity.
Qed.

(** The properties that the generated manifest has. *)
Lemma manifest_object_fields (name : string) (pkg : PackageJson) :
  own_fields (manifest_object build name pkg)
  = ("name", name)
    :: match pj_version pkg with Some v => [("version", v)] | None => [] end
    ++ match build with
       | EsSource => []
       | CompiledLib => match pj_main pkg with Some m => [("main", m)] | None => [] end
       end.
Proof.
  unfold manifest_object, own_fields.
  destruct build, (pj_version pkg), (pj_main pkg); reflexivity.
Qed.

End Manifest.

(** ** The batch of the external installer *)

Section Batch.
Context {World : Type} `{!Env World}.
Variable this : Command.
Local Abbreviation M := (M World).

Lemma same_view_refl (st : State World) : same_view st st.
Proof. by split. Qed.

Lemma same_view_trans (st1 st2 st3 : State World) :
  same_view st1 st2 → same_view st2 st3 → same_view st1 st3.
Proof.
  intros [Hw1 Hv1] [Hw2 Hv2]. split; [congruence|].
  intros p. by rewrite Hv2, Hv1.
Qed.

Lemma same_view_cache (st : State World) (p : string) (pj : PackageJson)
    (tr : list Event) :
  require_view st p = inr pj →
  same_view st (mkState (world st) (<[p:=pj]> (modules st)) tr).
Proof.
  intros Hview. split; [done|]. intros q. unfold require_view in *. cbn.
  destruct (decide (p = q)) as [<-|Hne].
  - rewrite lookup_insert_eq. by destruct (modules st !! p).
  - by rewrite lookup_insert_ne.
Qed.

Lemma installed_ok_same_view (st st' : State World) (pkg : Package) (d : string) :
  same_view st st' → installed_ok st' pkg d = installed_ok st pkg d.
Proof. intros [_ Hv]. unfold installed_ok. by rewrite Hv. Qed.

Lemma array_filter_view {A} (p : A → M bool) (dec : State World → A → bool)
    (arr : list A) (st : State World) :
  (∀ x st, ∃ st', p x st = (Returned (dec st x), st') ∧ same_view st st') →
  (∀ st st' x, same_view st st' → dec st' x = dec st x) →
  ∃ st', array_filter p arr st = (Returned (List.filter (dec st) arr), st')
         ∧ same_view st st'.
Proof.
  intros Hp Hdec. revert st.
  induction arr as [|x arr IH]; intros st.
  - exists st. split; [done|apply same_view_refl].
  - cbn [array_filter List.filter]. rewrite run_bind.
    destruct (Hp x st) as (st1 & -> & Hv1).
    rewrite run_bind.
    destruct (IH st1) as (st2 & -> & Hv2). rewrite run_ret.
    exists st2. split; [|by eapply same_view_trans].
    f_equal. rewrite (List.filter_ext (dec st1) (dec st)); [done|].
    intros y. by apply Hdec.
Qed.

Lemma externalPackages_run (pkg : Package) (st : State World) :
  ∃ st',
    externalPackages this pkg st
    = (Returned (map (install_spec pkg) (external_names this st pkg)), st')
    ∧ same_view st st'.
Proof.
  unfold externalPackages. rewrite run_bind.
  match goal with |- context [array_filter ?p ?arr st] =>
    destruct (array_filter_view p (λ _ d, negb (linked_locally this pkg d)) arr st)
      as (st1 & -> & Hv1) end.
  { intros d s. unfold linked_locally.
    destruct (List.find _ _) as [m|].
    - rewrite run_bind, hasMatchingDependency_run, run_ret.
      eexists. split; [reflexivity|]. by split.
    - exists s. split; [done|apply same_view_refl]. }
  { done. }
  rewrite run_bind.
  match goal with |- context [array_filter ?p ?arr st1] =>
    destruct (array_filter_view p (λ s d, negb (installed_ok s pkg d)) arr st1)
      as (st2 & -> & Hv2) end.
  { intros d s. rewrite run_bind.
    pose proof (hasDependencyInstalled_run pkg d s) as Hrun. cbv zeta in Hrun.
    rewrite Hrun. unfold installed_ok.
    destruct (require_view s (installed_manifest pkg d)) as [e|pj] eqn:Hview.
    - rewrite run_ret. eexists. split; [reflexivity|]. by split.
    - rewrite run_ret. eexists. split; [reflexivity|]. by apply same_view_cache. }
  { intros s s' d Hs. by rewrite (installed_ok_same_view s s'). }
  rewrite run_ret. exists st2. split; [|by eapply same_view_trans].
  unfold external_names.
  rewrite (List.filter_ext (λ d, negb (installed_ok st1 pkg d))
             (λ d, negb (installed_ok st pkg d))); [done|].
  intros d. by rewrite (installed_ok_same_view st st1).
Qed.

Lemma installed_ok_iff (st : State World) (pkg : Package) (d : string) :
  installed_ok st pkg d = true ↔ installed_satisfies st pkg d.
Proof.
  unfold installed_ok, installed_satisfies.
  destruct (require_view st _) as [e|pj]; split.
  - done.
  - by intros (pj & ? & ?).
  - eauto.
  - by intros (pj' & [= <-] & ?).
Qed.

Lemma find_by_name (l : list Package) (d : string) (m : Package) :
  List.find (λ p, bool_decide (name p = d)) l = Some m → m ∈ l ∧ name m = d.
Proof.
  intros Hfind. apply List.find_some in Hfind as [Hin Hname].
  split; [by apply list_elem_of_In|]. by apply bool_decide_eq_true in Hname.
Qed.

Lemma find_unique_name (l : list Package) (sibling : Package) :
  NoDup (map name l) → sibling ∈ l →
  List.find (λ p, bool_decide (name p = name sibling)) l = Some sibling.
Proof.
  induction l as [|p l IH]; intros Hnd Hin; [by apply elem_of_nil in Hin|].
  cbn [map] in Hnd. apply NoDup_cons in Hnd as [Hp Hnd].
  cbn [List.find]. apply elem_of_cons in Hin as [->|Hin].
  - by rewrite bool_decide_eq_true_2.
  - rewrite bool_decide_eq_false_2; [by apply IH|].
    intros Heq. apply Hp. rewrite Heq. apply list_elem_of_fmap. eauto.
Qed.

Lemma linked_locally_iff (pkg : Package) (d : string) :
  NoDup (map name (packages this)) →
  linked_locally this pkg d = true ↔ sibling_satisfies this pkg d.
Proof.
  intros Hnd. unfold linked_locally, sibling_satisfies. split.
  - destruct (List.find _ _) as [m|] eqn:Hfind; [|done].
    apply find_by_name in Hfind as [Hin Hname]. eauto.
  - intros (sibling & Hin & <- & Hm). by rewrite find_unique_name.
Qed.

Lemma external_names_iff (pkg : Package) (st : State World) (d : string) :
  NoDup (map name (packages this)) →
  d ∈ external_names this st pkg
  ↔ is_Some (allDependencies pkg !! d)
    ∧ ¬ sibling_satisfies this pkg d ∧ ¬ installed_satisfies st pkg d.
Proof.
  intros Hnd. unfold external_names.
  rewrite list_elem_of_In, !List.filter_In, <- list_elem_of_In.
  rewrite <- (linked_locally_iff pkg d Hnd), <- installed_ok_iff.
  rewrite !negb_true_iff, !not_true_iff_false.
  unfold Object_keys. rewrite list_elem_of_fmap.
  split.
  - intros [[([k v] & -> & Hkv) ?] ?]. split; [|done].
    apply elem_of_map_to_list in Hkv. by exists v.
  - intros ([v Hv] & ? & ?). split; [|done]. split; [|done].
    exists (d, v). split; [done|]. by apply elem_of_map_to_list.
Qed.

End Batch.

(** ** A pipeline that succeeds issued no failing operation *)

Section Clean.
Context {World : Type} `{!Env World}.
Variable build : Build.
Variable this : Command.
Local Abbreviation M := (M World).

Lemma clean_of_emits (m : M (option Error)) : emits fs_ok m → clean m.
Proof. intros Hm. eapply triple_conseq; [exact Hm|]. by intros r evs H _. Qed.

Lemma clean_failure (m : M (option Error)) (Hm : clean m) (st : State World)
    (evs : list Event) (ev : Event) :
  trace (m st).2 = trace st ++ evs → ev ∈ evs → fs_ok ev = false →
  (m st).1 ≠ Returned None.
Proof.
  intros Htr Hin Hfail Hnone.
  destruct (Hm st) as (evs' & Htr' & Hok).
  rewrite Htr in Htr'. apply app_inv_head in Htr'. subst evs'.
  specialize (Hok Hnone). rewrite Forall_forall in Hok.
  specialize (Hok ev Hin). rewrite Hfail in Hok. done.
Qed.

Lemma clean_call (f : World → option Error * World) (ev : option Error → Event) :
  fs_ok (ev None) → clean (call f ev).
Proof.
  intros Hok. apply triple_call. intros r [= ->]. by repeat constructor.
Qed.

Lemma clean_bind_emits {A} (m : M A) (k : A → M (option Error)) :
  emits fs_ok m → (∀ a, clean (k a)) → clean (m ≫= k).
Proof.
  intros Hm Hk. eapply triple_bind; [exact Hm| |done].
  intros a evs1 H1; simpl in *. eapply triple_conseq; [apply Hk|].
  intros r evs2 H2 Hnone; simpl in *. apply Forall_app. split; [done|by apply H2].
Qed.

(** A step that stops at its failure, as the nested callbacks do. *)
Lemma clean_step (m k : M (option Error)) :
  clean m → clean k →
  clean (err ← m; match err with Some e => mret (Some e) | None => k end).
Proof.
  intros Hm Hk. eapply triple_bind; [exact Hm| |done].
  intros [e|] evs1 H1; simpl in *.
  - by apply triple_ret.
  - eapply triple_conseq; [exact Hk|].
    intros r evs2 H2 Hnone; simpl in *. apply Forall_app. split; [by apply H1|by apply H2].
Qed.

Lemma clean_linkFile (prefix src dest file : string) :
  clean (linkFile prefix src dest file).
Proof.
  intros st.
  pose proof (linkFile_run prefix src dest file st) as Hrun. cbv zeta in Hrun.
  destruct (FileSystemUtilities_mkdirp _ (world st)) as [[e|] w].
  - rewrite Hrun. eexists [_]. split; [done|]. done.
  - destruct Hrun as (r & w' & -> & _). eexists [_; _]. split; [done|].
    cbn. intros [= Hres]. repeat constructor.
    unfold materialize_result, materialize_event in *.
    destruct (decide (path_extname file = ".js")); cbn.
    + by rewrite Hres.
    + destruct r as [e|]; [|done].
      destruct (decide (code e = Some "EEXIST")); [|done].
      by apply bool_decide_pack.
Qed.

Lemma globs_ok (patterns : list (option string)) (cwd : string) :
  triple (async_map patterns (λ file, run_glob file cwd) : M _)
    (λ r evs, ∀ files, r = Returned (inr files) → Forall fs_ok evs).
Proof.
  induction patterns as [|pattern patterns IH].
  - apply triple_ret. constructor.
  - cbn [async_map].
    eapply (triple_bind _ _ (λ r evs, evs = [EvGlob pattern cwd r])).
    + intros st. by eexists [_].
    + intros r1 evs1 ->; simpl.
      eapply triple_bind; [exact IH| |done].
      intros r2 evs2 H2; simpl in *. apply triple_ret. rewrite app_nil_r.
      intros files Hres. destruct r1 as [e|l1]; [done|].
      destruct r2 as [e|l2]; [done|].
      constructor; [done|]. by eapply H2.
    + done.
Qed.

Lemma clean_createLinkedDependencyFiles (src dest name : string) :
  clean (createLinkedDependencyFiles build this src dest name).
Proof.
  unfold createLinkedDependencyFiles.
  apply clean_bind_emits; [by apply emits_require|]. intros pkg.
  apply clean_bind_emits; [apply emits_linkFiles_of|]. intros linkFiles.
  apply async_each_none. intros task Htask.
  apply list_elem_of_In in Htask. destruct Htask as [<-|[<-|[]]].
  - eapply triple_bind; [apply globs_ok| |done].
    intros [e|files] evs1 H1; simpl in *; [by apply triple_ret|].
    eapply triple_conseq.
    + apply async_each_none. intros file _. apply clean_linkFile.
    + intros r evs2 H2 Hnone; simpl in *. apply Forall_app.
      split; [by eapply H1 | by apply H2].
  - by apply clean_call.
Qed.

Lemma clean_createLinkedDependency (src dest name : string) :
  clean (createLinkedDependency build this src dest name).
Proof.
  unfold createLinkedDependency.
  apply clean_step; [by apply clean_call|].
  apply clean_step; [by apply clean_call|].
  apply clean_createLinkedDependencyFiles.
Qed.

Lemma clean_linkDependenciesForPackage (pkg : Package) :
  clean (linkDependenciesForPackage build this pkg).
Proof.
  apply async_each_none. intros dependency _. unfold linkCandidate.
  apply clean_bind_emits; [by apply emits_hasMatchingDependency|].
  intros matching. destruct (negb matching); [by apply triple_ret|].
  apply clean_createLinkedDependency.
Qed.

Lemma emits_hasDependencyInstalled φ (pkg : Package) (dependency : string) :
  (∀ p r, φ (EvRequire p r)) → (∀ a e r, φ (EvSatisfies a e r)) →
  emits φ (hasDependencyInstalled pkg dependency : M bool).
Proof.
  intros Hr Hs. unfold hasDependencyInstalled.
  apply emits_try_catch; [|intros; apply emits_ret].
  apply emits_bind; [by apply emits_require|]. intros pj.
  unfold isCompatableVersion.
  apply emits_bind; [by apply emits_log | intros; apply emits_ret].
Qed.

Lemma emits_externalPackages φ (pkg : Package) :
  (∀ p r, φ (EvRequire p r)) → (∀ a e r, φ (EvSatisfies a e r)) →
  (∀ msg, φ (EvWarning msg)) →
  emits φ (externalPackages this pkg : M _).
Proof.
  intros Hr Hs Hw. unfold externalPackages.
  apply emits_bind.
  { apply emits_filter. intros d _. destruct (List.find _ _).
    - apply emits_bind; [by apply emits_hasMatchingDependency|].
      intros; apply emits_ret.
    - apply emits_ret. }
  intros notLinked. apply emits_bind; [|intros; apply emits_ret].
  apply emits_filter. intros d _.
  apply emits_bind; [by apply emits_hasDependencyInstalled|].
  intros; apply emits_ret.
Qed.

Lemma clean_installExternalPackages (pkg : Package) :
  clean (installExternalPackages this pkg).
Proof.
  unfold installExternalPackages.
  apply clean_bind_emits; [by apply emits_externalPackages|].
  intros [|spec specs]; [by apply triple_ret|].
  by apply clean_call.
Qed.

Lemma clean_bootstrapPackage (pkg : Package) :
  clean (bootstrapPackage build this pkg).
Proof.
  unfold bootstrapPackage.
  eapply triple_bind; [|intros err evs1 H1|done].
  - apply async_series_none. repeat constructor.
    + by apply clean_call.
    + apply clean_installExternalPackages.
    + apply clean_linkDependenciesForPackage.
  - simpl in *.
    eapply triple_bind;
      [by apply (triple_log _ (λ _ evs, evs = [EvProgressTick (name pkg)]))| |done].
    intros [] evs2 ->; simpl. apply triple_ret.
    intros [= ->]. rewrite ?app_nil_r. apply Forall_app. split; [by apply H1|].
    rewrite ?app_nil_r. by repeat constructor.
Qed.

End Clean.

(** ** The install phase evaluates the declared siblings *)

Section InstallPhase.
Context {World : Type} `{!Env World}.
Variable this : Command.
Local Abbreviation M := (M World).

Lemma array_filter_elem {A} (p : A → M bool) (arr : list A) (x : A)
    (st : State World) :
  (∀ y, emits (λ _, True) (p y)) →
  (∀ y s, ∃ b s', p y s = (Returned b, s')) →
  x ∈ arr →
  ∃ s1 pre post,
    trace s1 = trace st ++ pre
    ∧ trace (array_filter p arr st).2 = trace (p x s1).2 ++ post.
Proof.
  intros Hgrow Htotal Hx. revert st.
  induction arr as [|y arr IH]; intros st; [by apply elem_of_nil in Hx|].
  cbn [array_filter]. rewrite run_bind.
  destruct (Htotal y st) as (b & s2 & Hy).
  apply elem_of_cons in Hx as [->|Hx].
  - exists st, []. rewrite Hy, run_bind.
    destruct (emits_filter (λ _, True) p arr (λ z _, Hgrow z) s2) as (post & Hpost & _).
    exists post. rewrite app_nil_r. split; [done|].
    destruct (array_filter p arr s2) as [[l|e] s3]; cbn in *; done.
  - rewrite Hy, run_bind.
    destruct (IH Hx s2) as (s1 & pre & post & Hpre & Hpost).
    destruct (Hgrow y st) as (evy & Hevy & _). rewrite Hy in Hevy. cbn in Hevy.
    exists s1, (evy ++ pre), post. split; [by rewrite Hpre, Hevy, app_assoc|].
    destruct (array_filter p arr s2) as [[l|e] s3]; cbn in *; done.
Qed.

Lemma externalPackages_checks_sibling (pkg sibling : Package) (range : string)
    (st : State World) :
  NoDup (map name (packages this)) →
  sibling ∈ packages this →
  allDependencies pkg !! name sibling = Some range →
  range ≠ EmptyString →
  ∃ evs,
    trace (externalPackages this pkg st).2 = trace st ++ evs
    ∧ EvSatisfies (Some (version sibling)) (Some range)
        (semver_satisfies (Some (version sibling)) (Some range)) ∈ evs.
Proof.
  intros Hnd Hin Hrange Hne. unfold externalPackages. rewrite run_bind.
  match goal with |- context [array_filter ?p ?arr st] =>
    set (first := p); set (keys := arr) end.
  assert (Hgrow : ∀ d, emits (λ _, True) (first d)).
  { intros d. subst first. cbn. destruct (List.find _ _).
    - apply emits_bind; [by apply emits_hasMatchingDependency|].
      intros; apply emits_ret.
    - apply emits_ret. }
  assert (Htotal : ∀ d s, ∃ b s', first d s = (Returned b, s')).
  { intros d s. subst first. cbn. destruct (List.find _ _).
    - rewrite run_bind, hasMatchingDependency_run, run_ret. eauto.
    - eauto. }
  assert (Hkey : name sibling ∈ keys).
  { subst keys. unfold Object_keys. apply list_elem_of_fmap.
    exists (name sibling, range). split; [done|]. by apply elem_of_map_to_list. }
  destruct (array_filter_elem first keys (name sibling) st Hgrow Htotal Hkey)
    as (s1 & pre & post & Hpre & Hpost).
  assert (Hstep : trace (first (name sibling) s1).2
                  = trace s1 ++ [EvSatisfies (Some (version sibling)) (Some range)
                       (semver_satisfies (Some (version sibling)) (Some range))]).
  { subst first. cbn. rewrite find_unique_name by done.
    rewrite run_bind, hasMatchingDependency_run, run_ret. cbn.
    unfold matching_events. rewrite Hrange.
    assert (js_falsy (Some range) = false) as ->.
    { cbn. by apply bool_decide_eq_false_2. }
    cbn. by destruct (semver_satisfies _ _). }
  rewrite Hstep, Hpre in Hpost.
  destruct (array_filter first keys st) as [[notLinked|e] st1] eqn:Hfirst; cbn in Hpost.
  - match goal with |- context [mbind ?k ?m st1] => set (rest := mbind k m) end.
    assert (Hrest : emits (λ _, True) rest).
    { subst rest. apply emits_bind; [|intros; apply emits_ret].
      apply emits_filter. intros d _.
      apply emits_bind; [by apply emits_hasDependencyInstalled|].
      intros; apply emits_ret. }
    destruct (Hrest st1) as (evs2 & -> & _). rewrite Hpost.
    eexists. split; [by rewrite <- !app_assoc|].
    rewrite !elem_of_app. right. left. apply list_elem_of_singleton. reflexivity.
  - eexists. cbn. split; [by rewrite Hpost, <- !app_assoc|].
    rewrite !elem_of_app. right. left. apply list_elem_of_singleton. reflexivity.
Qed.

End InstallPhase.

(** ** The pool of [async.parallelLimit] *)

Section Pool.
Context {World : Type}.
Local Abbreviation M := (M World).

Lemma run_in_order_take (tasks : list (M (option Error))) (st st' : State World)
    (results : list (option Error)) :
  run_in_order tasks st = (Returned results, st') → length results = length tasks.
Proof.
  revert st st' results.
  induction tasks as [|task tasks IH]; intros st st' results Hrun.
  - unfold run_in_order, mret, M_ret in Hrun. by injection Hrun as <- _.
  - cbn [run_in_order] in Hrun.
    apply bind_returned in Hrun as (err & s1 & _ & Hrun).
    apply bind_returned in Hrun as (errs & s2 & Hrest & Hrun).
    rewrite run_ret in Hrun. injection Hrun as <- _.
    cbn. f_equal. by eapply IH.
Qed.

(** The pool succeeds exactly when every task, run in order, succeeds. *)
Lemma parallelLimit_pool_none (others : nat) (tasks : list (M (option Error)))
    (st st' : State World) :
  parallelLimit_pool others tasks st = (Returned None, st')
  ↔ run_in_order tasks st = (Returned (replicate (length tasks) None), st').
Proof.
  revert st st'. induction tasks as [|task tasks IH]; intros st st'.
  { cbn. unfold mret, M_ret. split; intros [= ->]; done. }
  cbn [parallelLimit_pool run_in_order length replicate].
  rewrite !run_bind. destruct (task st) as [[[e|]|e] s1]; [| |done].
  - rewrite !run_bind. split.
    + destruct (run_started _ _) as [[[]|?] ?]; rewrite ?run_ret; done.
    + destruct (run_in_order tasks s1) as [[errs|?] ?]; rewrite ?run_ret; done.
  - rewrite IH, run_bind.
    destruct (run_in_order tasks s1) as [[errs|?] s2]; [|done].
    rewrite run_ret. split; intros [= -> ->]; done.
Qed.

(** When the pool fails, it reports the first failure in order; the tasks
    started with the failing one still run, and no other task is started. *)
Lemma parallelLimit_pool_some (others : nat) (tasks : list (M (option Error)))
    (st st' : State World) (e : Error) :
  parallelLimit_pool others tasks st = (Returned (Some e), st')
  ↔ ∃ k task st1 st2,
      tasks !! k = Some task
      ∧ run_in_order (take k tasks) st = (Returned (replicate k None), st1)
      ∧ task st1 = (Returned (Some e), st2)
      ∧ run_started (take others (drop (S k) tasks)) st2 = (Returned (), st').
Proof.
  revert st st'. induction tasks as [|task tasks IH]; intros st st'.
  - split; [done|]. by intros (k & t & ? & ? & ? & _).
  - cbn [parallelLimit_pool]. rewrite run_bind. split.
    + destruct (task st) as [[[e'|]|e'] s1] eqn:Htask; [| |done].
      * rewrite run_bind.
        destruct (run_started (take others tasks) s1) as [[[]|?] s2] eqn:Hrest; [|done].
        rewrite run_ret. intros [= -> ->].
        exists 0, task, st, s1. done.
      * intros Hpool. apply IH in Hpool as (k & t & s2 & s3 & Hk & Hpre & Ht & Hrest).
        exists (S k), t, s2, s3. split; [done|]. split; [|done].
        cbn [take run_in_order replicate]. by rewrite run_bind, Htask, run_bind, Hpre, run_ret.
    + intros (k & t & s1 & s2 & Hk & Hpre & Ht & Hrest).
      destruct k as [|k].
      * cbn in Hk. injection Hk as <-. cbn in Hpre. rewrite run_ret in Hpre.
        injection Hpre as <-.
        change (drop 1 (task :: tasks)) with tasks in Hrest.
        by rewrite Ht, run_bind, Hrest, run_ret.
      * cbn [take run_in_order replicate] in Hpre.
        apply bind_returned in Hpre as (err & s3 & Htask & Hpre).
        apply bind_returned in Hpre as (errs & s4 & Hpre & Hret).
        rewrite run_ret in Hret. injection Hret as -> -> <-.
        rewrite Htask. apply IH. exists k, t, s4, s2. done.
Qed.

End Pool.

(** ** The decision of [hasMatchingDependency], spelled out *)

Section Decision.
Context {World : Type} `{!Env World}.
Variable this : Command.

Lemma dependencyMatches_iff (pkg dependency : Package) :
  dependencyMatches pkg dependency = true
  ↔ ∃ range, allDependencies pkg !! name dependency = Some range
             ∧ range ≠ EmptyString
             ∧ semver_satisfies (Some (version dependency)) (Some range) = true.
Proof.
  unfold dependencyMatches.
  destruct (allDependencies pkg !! name dependency) as [range|]; cbn.
  - destruct (decide (range = EmptyString)) as [->|Hne].
    + split; [done|]. by intros (r & [= <-] & ? & _).
    + rewrite bool_decide_eq_false_2 by done. cbn. split; [eauto|].
      by intros (r & [= <-] & _ & ?).
  - split; [done|]. by intros (r & ? & _).
Qed.

Lemma matching_events_mismatch (pkg dependency : Package) (range : string) :
  allDependencies pkg !! name dependency = Some range →
  range ≠ EmptyString →
  semver_satisfies (Some (version dependency)) (Some range) = false →
  matching_events pkg dependency true
  = [EvSatisfies (Some (version dependency)) (Some range) false;
     EvWarning (mismatch_warning pkg dependency (Some range) (version dependency))].
Proof.
  intros Hrange Hne Hsat. unfold matching_events. rewrite Hrange. cbn.
  rewrite bool_decide_eq_false_2 by done. by rewrite Hsat.
Qed.

Lemma matching_events_check (pkg dependency : Package) (range : string) (b : bool) :
  allDependencies pkg !! name dependency = Some range →
  range ≠ EmptyString →
  ∃ evs, matching_events pkg dependency b
         = EvSatisfies (Some (version dependency)) (Some range)
             (semver_satisfies (Some (version dependency)) (Some range)) :: evs.
Proof.
  intros Hrange Hne. unfold matching_events. rewrite Hrange. cbn.
  rewrite bool_decide_eq_false_2 by done. eauto.
Qed.

Lemma linked_names_NoDup (pkg : Package) (l : list Package) :
  NoDup (map name l) → NoDup (map name (List.filter (dependencyMatches pkg) l)).
Proof.
  induction l as [|p l IH]; intros Hnd; [constructor|].
  cbn [map] in Hnd. apply NoDup_cons in Hnd as [Hp Hnd].
  cbn [List.filter]. destruct (dependencyMatches pkg p); [|by apply IH].
  cbn [map]. apply NoDup_cons. split; [|by apply IH].
  intros Hin. apply Hp.
  apply list_elem_of_fmap in Hin as (q & -> & Hq).
  apply list_elem_of_In, List.filter_In in Hq as [Hq _].
  apply list_elem_of_fmap. exists q. split; [done|]. by apply list_elem_of_In.
Qed.

Lemma installExternalPackages_run (pkg : Package) (st : State World) :
  ∃ st',
    same_view st st'
    ∧ installExternalPackages this pkg st
      = match map (install_spec pkg) (external_names this st pkg) with
        | [] => (Returned None, st')
        | batch => installInDir (location pkg) batch st'
        end.
Proof.
  unfold installExternalPackages. rewrite run_bind.
  destruct (externalPackages_run this pkg st) as (st' & -> & Hview).
  exists st'. split; [done|]. by destruct (map _ _).
Qed.

End Decision.

(** * Further properties of the command *)

(** ** Strings *)

Lemma string_app_inv_head (a x y : string) : a +:+ x = a +:+ y → x = y.
Proof. induction a as [|c a IH]; [done|]. intros [= H]. by apply IH. Qed.

Lemma string_length_app (a b : string) :
  String.length (a +:+ b) = String.length a + String.length b.
Proof.
  induction a as [|c a IH]; [done|].
  change (S (String.length (a +:+ b)) = S (String.length a + String.length b)).
  by rewrite IH.
Qed.

Lemma string_app_inv_tail (x y s : string) : x +:+ s = y +:+ s → x = y.
Proof.
  revert y. induction x as [|c x IH]; intros [|d y] Heq; [done| | |].
  - apply (f_equal String.length) in Heq.
    rewrite !string_length_app in Heq. cbn in Heq. lia.
  - apply (f_equal String.length) in Heq.
    rewrite !string_length_app in Heq. cbn in Heq. lia.
  - injection Heq as -> Heq. f_equal. by apply IH.
Qed.

Lemma JSON_stringify_string_inj (s t : string) :
  JSON_stringify_string s = JSON_stringify_string t → s = t.
Proof.
  intros Heq. apply (f_equal JSON_parse_string) in Heq.
  rewrite !JSON_parse_stringify in Heq. by injection Heq.
Qed.

(** ** Counting events *)

Lemma count_events_app (kind : Event → bool) (a b : list Event) :
  count_events kind (a ++ b) = count_events kind a + count_events kind b.
Proof. unfold count_events. by rewrite List.filter_app, length_app. Qed.

Lemma count_events_none (kind : Event → bool) (evs : list Event) :
  Forall (λ ev, kind ev = false) evs → count_events kind evs = 0.
Proof.
  unfold count_events. induction 1 as [|ev evs Hev _ IH]; [done|].
  cbn. by rewrite Hev.
Qed.

Lemma count_events_zero (kind : Event → bool) (evs : list Event) (ev : Event) :
  count_events kind evs = 0 → ev ∈ evs → kind ev = false.
Proof.
  unfold count_events. induction evs as [|x evs IH]; intros Hc Hin.
  - by apply elem_of_nil in Hin.
  - cbn in Hc. destruct (kind x) eqn:Hx; [done|].
    apply elem_of_cons in Hin as [->|Hin]; [done|]. by apply IH.
Qed.

(** ** What leaves the module cache alone *)

Section Cache.
Context {World : Type}.
Local Abbreviation M := (M World).

Lemma keeps_modules_ret {A} (a : A) : keeps_modules (mret a : M A).
Proof. by intros st. Qed.

Lemma keeps_modules_bind {A B} (m : M A) (k : A → M B) :
  keeps_modules m → (∀ a, keeps_modules (k a)) → keeps_modules (m ≫= k).
Proof.
  intros Hm Hk st. rewrite run_bind. specialize (Hm st).
  destruct (m st) as [[a|e] s1]; cbn in *; [|done].
  by rewrite Hk.
Qed.

Lemma keeps_modules_call {R} (f : World → R * World) (ev : R → Event) :
  keeps_modules (call f ev).
Proof. intros st. unfold call. by destruct (f (world st)). Qed.

Lemma keeps_modules_each {A} (arr : list A) (iterator : A → M (option Error)) :
  (∀ x, x ∈ arr → keeps_modules (iterator x)) →
  keeps_modules (async_each arr iterator).
Proof.
  induction arr as [|x arr IH]; intros Hit; [apply keeps_modules_ret|].
  cbn [async_each]. apply keeps_modules_bind; [apply Hit; left|]. intros err.
  apply keeps_modules_bind; [|intros; apply keeps_modules_ret].
  apply IH. intros y Hy. apply Hit. by right.
Qed.

Lemma keeps_modules_map {A B} (arr : list A) (iterator : A → M (Error + B)) :
  (∀ x, keeps_modules (iterator x)) → keeps_modules (async_map arr iterator).
Proof.
  intros Hit. induction arr as [|x arr IH]; [apply keeps_modules_ret|].
  cbn [async_map]. apply keeps_modules_bind; [done|]. intros r.
  apply keeps_modules_bind; [done|]. intros; apply keeps_modules_ret.
Qed.

Lemma keeps_modules_series (tasks : list (M (option Error))) :
  Forall keeps_modules tasks → keeps_modules (async_series tasks).
Proof.
  induction 1 as [|task tasks Ht _ IH]; [apply keeps_modules_ret|].
  cbn [async_series]. apply keeps_modules_bind; [done|].
  intros [e|]; [apply keeps_modules_ret | done].
Qed.

End Cache.

(** ** The files of a linked sibling *)

Section Files.
Context {World : Type} `{!Env World}.
Variable build : Build.
Variable this : Command.
Local Abbreviation M := (M World).

Lemma keeps_modules_linkFile (prefix src dest file : string) :
  keeps_modules (linkFile prefix src dest file).
Proof.
  unfold linkFile. apply keeps_modules_series. repeat constructor.
  - apply keeps_modules_call.
  - unfold materialize. destruct (decide _); [apply keeps_modules_call|].
    apply keeps_modules_bind; [apply keeps_modules_call|].
    intros [e|]; [|apply keeps_modules_ret].
    destruct (decide _); apply keeps_modules_ret.
Qed.

Lemma keeps_modules_run_glob (pattern : option string) (cwd : string) :
  keeps_modules (run_glob pattern cwd).
Proof. by intros st. Qed.

(** The two tasks run in parallel by [createLinkedDependencyFiles]. *)
Lemma keeps_modules_link_tasks (prefix src dest : string)
    (linkFiles : list (option string)) (manifestPath content : string) :
  keeps_modules
    (async_parallel [
       async_waterfall
         (async_map linkFiles (λ file, run_glob file src))
         (λ files, async_each (concat files) (linkFile prefix src dest));
       writeFile manifestPath content ]).
Proof.
  apply keeps_modules_each. intros task Htask.
  apply list_elem_of_In in Htask. destruct Htask as [<-|[<-|[]]].
  - apply keeps_modules_bind.
    + apply keeps_modules_map. intros. apply keeps_modules_run_glob.
    + intros [e|files]; [apply keeps_modules_ret|].
      apply keeps_modules_each. intros. apply keeps_modules_linkFile.
  - apply keeps_modules_call.
Qed.

Lemma linkFiles_of_run (p : string) (pkg : PackageJson) (st : State World) :
  ∃ st1,
    linkFiles_of p pkg st = (Returned (linked_patterns pkg), st1)
    ∧ world st1 = world st ∧ trace st1 = trace st
    ∧ (modules st !! p = Some pkg → modules st1 !! p = Some (after_push pkg)).
Proof.
  unfold linkFiles_of, linked_patterns, after_push.
  destruct (pj_lerna_files pkg) as [files|].
  - rewrite run_bind. cbn. eexists. split; [reflexivity|]. cbn.
    split; [done|]. split; [done|]. intros _. apply lookup_insert_eq.
  - exists st. done.
Qed.

(** X2. [linkFiles.push(pkg.main)] pushes on the array of the manifest that
    [require] caches: after the files of a sibling were created, whatever
    the outcome, the cached manifest of the sibling has the main entry once
    more in [lerna.files], so that the next link of the same sibling expands
    one more pattern.  A manifest without [lerna.files] is left as it is. *)
Theorem linked_files_grow_in_the_cache (src dest name : string) (st : State World)
    (pkg : PackageJson) :
  let p := path_join [src; "package.json"] in
  let st' := (createLinkedDependencyFiles build this src dest name st).2 in
  require_view st p = inr pkg →
  require_view st' p = inr (after_push pkg)
  ∧ (∀ files, pj_lerna_files pkg = Some files →
              linked_patterns (after_push pkg) = linked_patterns pkg ++ [pj_main pkg])
  ∧ (pj_lerna_files pkg = None → after_push pkg = pkg).
Proof.
  intros p st' Hview. split; [|split].
  - subst st'. unfold createLinkedDependencyFiles. fold p.
    rewrite run_bind, require_run, Hview, run_bind.
    match goal with |- context [linkFiles_of p pkg ?s] =>
      destruct (linkFiles_of_run p pkg s) as (s1 & Hlf & _ & _ & Hmod) end.
    rewrite Hlf.
    unfold require_view.
    rewrite (keeps_modules_link_tasks _ src dest _ _ _ s1).
    rewrite Hmod; [done|]. cbn. apply lookup_insert_eq.
  - intros files Hfiles. unfold linked_patterns, after_push. rewrite Hfiles. done.
  - intros Hnone. unfold after_push. by rewrite Hnone.
Qed.

(** The globs of the patterns, when none of them throws. *)
Lemma async_map_globs (patterns : list (option string)) (cwd : string)
    (st st' : State World) (res : Error + list (list string)) :
  async_map patterns (λ file, run_glob file cwd) st = (Returned res, st') →
  st' = mkState (world st) (modules st)
          (trace st ++ glob_events cwd (world st) patterns).
Proof.
  revert st st' res. induction patterns as [|pattern patterns IH]; intros st st' res Hrun.
  - cbn in Hrun. unfold mret, M_ret in Hrun. injection Hrun as _ <-.
    cbn. by rewrite app_nil_r, state_eta.
  - cbn [async_map] in Hrun.
    apply bind_returned in Hrun as (r1 & s1 & Hglob & Hrun).
    apply bind_returned in Hrun as (r2 & s2 & Hrest & Hrun).
    rewrite run_ret in Hrun. injection Hrun as _ <-.
    unfold run_glob in Hglob. injection Hglob as Hr <-.
    apply IH in Hrest. rewrite Hrest. cbn. rewrite <- app_assoc. done.
Qed.

Lemma emits_linkFile_operations (prefix src dest file : string) :
  emits (λ ev, is_glob ev = false) (linkFile prefix src dest file).
Proof.
  intros st.
  pose proof (linkFile_run prefix src dest file st) as Hrun. cbv zeta in Hrun.
  destruct (FileSystemUtilities_mkdirp _ (world st)) as [[e|] w].
  - rewrite Hrun. eexists [_]. split; [done|]. by repeat constructor.
  - destruct Hrun as (r & w' & -> & _). eexists [_; _]. split; [done|].
    repeat constructor. unfold materialize_event. by destruct (decide _).
Qed.

(** X3. When the files of a sibling are created without an exception, after
    the manifest of the sibling is required, [glob] is called exactly once
    for each pattern, in order: the patterns of [lerna.files], then the main
    entry, all rooted at the location of the sibling and all before any file
    is materialised. *)
Theorem globs_once_per_pattern (src dest name : string) (st st' : State World)
    (r : option Error) (pkg : PackageJson) :
  let p := path_join [src; "package.json"] in
  createLinkedDependencyFiles build this src dest name st = (Returned r, st') →
  require_view st p = inr pkg →
  ∃ evs,
    trace st'
    = trace st ++ EvRequire p (inr pkg)
        :: glob_events src (world st) (linked_patterns pkg) ++ evs
    ∧ count_events is_glob evs = 0.
Proof.
  intros p Hrun Hview. unfold createLinkedDependencyFiles in Hrun. fold p in Hrun.
  apply bind_returned in Hrun as (pkg' & s1 & Hreq & Hrun).
  rewrite require_run, Hview in Hreq. injection Hreq as <- <-.
  apply bind_returned in Hrun as (linkFiles & s2 & Hlf & Hrun).
  match type of Hlf with linkFiles_of p pkg ?s = _ =>
    destruct (linkFiles_of_run p pkg s) as (s2' & Hlf' & Hw2 & Htr2 & _) end.
  rewrite Hlf in Hlf'. injection Hlf' as -> <-.
  unfold async_parallel in Hrun. cbn [async_each] in Hrun.
  apply bind_returned in Hrun as (e1 & s3 & Hfiles & Hrun).
  apply bind_returned in Hrun as (rest & s4 & Hrest & Hrun).
  rewrite run_ret in Hrun. injection Hrun as _ <-.
  apply bind_returned in Hrest as (e2 & s5 & Hwrite & Hrest).
  rewrite run_bind, !run_ret in Hrest. injection Hrest as _ <-.
  unfold writeFile, call in Hwrite.
  destruct (FileSystemUtilities_writeFile _ _ (world s3)) as [w w3].
  injection Hwrite as _ <-.
  apply bind_returned in Hfiles as (res & sg & Hglobs & Hfiles).
  apply async_map_globs in Hglobs. cbn in Hw2, Htr2.
  assert (∃ evs, trace s3 = trace sg ++ evs ∧ Forall (λ ev, is_glob ev = false) evs)
    as (evs & Hevs & Hnone).
  { destruct res as [e|files].
    - rewrite run_ret in Hfiles. injection Hfiles as _ <-. exists [].
      by rewrite app_nil_r.
    - cbv beta in Hfiles.
      match type of Hfiles with async_each ?l ?f _ = _ =>
        pose proof (emits_each (λ ev, is_glob ev = false) l f
                      (λ file _, emits_linkFile_operations _ src dest file)) as Hem end.
      destruct (triple_trace _ _ _ _ _ Hem Hfiles) as (evs & Hevs & Hok).
      by exists evs. }
  eexists (evs ++ [_]). split.
  - cbn [trace]. rewrite Hevs, Hglobs. cbn [trace]. rewrite Htr2, Hw2.
    rewrite <- !app_assoc. reflexivity.
  - rewrite count_events_app, (count_events_none _ evs Hnone). done.
Qed.

(** X11. The content of a proxy determines the file that it re-exports:
    with the same prefix, two proxies with the same content forward to the
    same path. *)
Theorem proxy_content_determines_source (prefix src src' file file' : string) :
  proxy_content prefix src file = proxy_content prefix src' file' →
  path_join [src; file] = path_join [src'; file'].
Proof.
  unfold proxy_content. intros Heq.
  apply string_app_inv_head, string_app_inv_head in Heq.
  apply string_app_inv_tail in Heq.
  by apply JSON_stringify_string_inj.
Qed.

End Files.

(** ** The linking of one pair, the phases of a pipeline *)

Section Pipeline.
Context {World : Type} `{!Env World}.
Variable build : Build.
Variable this : Command.
Local Abbreviation M := (M World).

(** X1. [createLinkedDependency] stops at its first failure.  When the reset
    of the target fails, nothing else is done; when the creation of the target
    fails, the manifest of the sibling is not read; and when the manifest of
    the sibling cannot be loaded, the exception is thrown after the target
    was reset and created anew, with no file in it. *)
Theorem createLinkedDependency_stops_at_first_failure (src dest name : string)
    (st : State World) :
  let p := path_join [src; "package.json"] in
  let run := createLinkedDependency build this src dest name st in
  match FileSystemUtilities_rimraf dest (world st) with
  | (Some e, w) =>
      run = (Returned (Some e),
             mkState w (modules st) (trace st ++ [EvRimraf dest (Some e)]))
  | (None, w) =>
      match FileSystemUtilities_mkdirp dest w with
      | (Some e, w') =>
          run = (Returned (Some e),
                 mkState w' (modules st)
                   (trace st ++ [EvRimraf dest None; EvMkdirp dest (Some e)]))
      | (None, w') =>
          ∀ e, modules st !! p = None → load_json p w' = inl e →
               run = (Thrown e,
                      mkState w' (modules st)
                        (trace st ++ [EvRimraf dest None; EvMkdirp dest None;
                                      EvRequire p (inl e)]))
      end
  end.
Proof.
  intros p run. subst run.
  destruct (FileSystemUtilities_rimraf dest (world st)) as [[e|] w] eqn:Hreset.
  { unfold createLinkedDependency. rewrite run_bind. unfold rimraf at 1, call.
    by rewrite Hreset. }
  destruct (FileSystemUtilities_mkdirp dest w) as [[e|] w'] eqn:Hmake.
  - unfold createLinkedDependency. rewrite run_bind. unfold rimraf at 1, call.
    rewrite Hreset, run_bind. unfold mkdirp at 1, call. cbn [world modules trace].
    rewrite Hmake, run_ret, <- app_assoc. done.
  - intros e Hcache Hload.
    unfold createLinkedDependency. rewrite run_bind. unfold rimraf at 1, call.
    rewrite Hreset, run_bind. unfold mkdirp at 1, call. cbn [world modules trace].
    rewrite Hmake.
    rewrite (createLinkedDependencyFiles_throws build this src dest name _ e).
    + cbn [world modules trace]. by rewrite <- !app_assoc.
    + unfold require_view. cbn [world modules]. fold p. by rewrite Hcache.
Qed.

Lemma emits_hasMatchingDependency_quiet φ (pkg dependency : Package) :
  (∀ a e r, φ (EvSatisfies a e r)) →
  emits φ (hasMatchingDependency pkg dependency false : M bool).
Proof.
  intros Hs st. rewrite hasMatchingDependency_run.
  eexists. split; [reflexivity|]. cbn. unfold matching_events.
  destruct (js_falsy _); [constructor|].
  destruct (semver_satisfies _ _); by repeat constructor.
Qed.

(** The events of [installExternalPackages]. *)
Lemma emits_install_phase (pkg : Package) :
  emits (install_phase_event pkg) (installExternalPackages this pkg).
Proof.
  unfold installExternalPackages. apply emits_bind.
  - unfold externalPackages. apply emits_bind.
    { apply emits_filter. intros d _. destruct (List.find _ _).
      - apply emits_bind; [by apply emits_hasMatchingDependency_quiet|].
        intros; apply emits_ret.
      - apply emits_ret. }
    intros notLinked. apply emits_bind; [|intros; apply emits_ret].
    apply emits_filter. intros d _.
    apply emits_bind; [|intros; apply emits_ret].
    unfold hasDependencyInstalled. fold (installed_manifest pkg d).
    apply emits_try_catch; [|intros; apply emits_ret].
    apply emits_bind; [apply emits_require; intros; cbn; eauto|]. intros pj.
    unfold isCompatableVersion.
    apply emits_bind; [by apply emits_log | intros; apply emits_ret].
  - intros [|spec specs]; [apply emits_ret|].
    unfold installInDir. by apply emits_call.
Qed.

Lemma install_at_most_once (pkg : Package) :
  triple (installExternalPackages this pkg)
    (λ _ evs, (count_events is_install evs ≤ 1)%nat).
Proof.
  unfold installExternalPackages.
  eapply triple_bind; [apply (emits_externalPackages this (λ ev, is_install ev = false))| |];
    try done.
  - intros batch evs1 H1; simpl in *.
    destruct batch as [|spec specs].
    + apply triple_ret. rewrite app_nil_r, (count_events_none _ _ H1). lia.
    + apply triple_call. intros r.
      rewrite count_events_app, (count_events_none _ _ H1). cbn. lia.
  - intros e evs1 H1; simpl in *. rewrite (count_events_none _ _ H1). lia.
Qed.

(** The events of the link phase. *)
Lemma emits_link_phase (pkg : Package) :
  emits (link_phase_event build this pkg) (linkDependenciesForPackage build this pkg).
Proof.
  apply emits_each. intros candidate Hin.
  eapply emits_impl; [|apply emits_candidate_events].
  intros ev Hev. by exists candidate.
Qed.

Lemma install_phase_event_kind (pkg : Package) (ev : Event) :
  install_phase_event pkg ev →
  is_link_operation ev = false ∧ is_warning ev = false ∧ is_tick ev = false
  ∧ is_success ev = false.
Proof. by destruct ev. Qed.

Lemma link_event_kind (src dest name : string) (ev : Event) :
  link_event build this src dest name ev →
  is_install ev = false ∧ is_warning ev = false ∧ is_tick ev = false
  ∧ is_success ev = false.
Proof. by destruct ev. Qed.

Lemma pair_event_kind (src dest name : string) (ev : Event) :
  pair_event build this src dest name ev →
  is_install ev = false ∧ is_warning ev = false ∧ is_tick ev = false
  ∧ is_success ev = false.
Proof.
  intros [[r ->]|[[r ->]|Hev]]; [done|done|]. by eapply link_event_kind.
Qed.

Lemma link_phase_event_kind (pkg : Package) (ev : Event) :
  link_phase_event build this pkg ev →
  is_install ev = false ∧ is_tick ev = false ∧ is_success ev = false.
Proof.
  intros (candidate & _ & [(a & e & r & ->)|[(msg & ->)|Hev]]); [done|done|].
  apply pair_event_kind in Hev as (? & _ & ? & ?). done.
Qed.

(** The pipeline of a package, step by step. *)
Lemma bootstrapPackage_run (pkg : Package) (st : State World) :
  bootstrapPackage build this pkg st
  = let '(made, w) := FileSystemUtilities_mkdirp (nodeModulesLocation pkg) (world st) in
    let s1 := mkState w (modules st)
                (trace st ++ [EvMkdirp (nodeModulesLocation pkg) made]) in
    let tick (s : State World) (r : option Error) :=
      (Returned r,
       mkState (world s) (modules s) (trace s ++ [EvProgressTick (name pkg)])) in
    match made with
    | Some e => tick s1 (Some e)
    | None =>
        match installExternalPackages this pkg s1 with
        | (Returned (Some e), s2) => tick s2 (Some e)
        | (Returned None, s2) =>
            match linkDependenciesForPackage build this pkg s2 with
            | (Returned r, s3) => tick s3 r
            | (Thrown e, s3) => (Thrown e, s3)
            end
        | (Thrown e, s2) => (Thrown e, s2)
        end
    end.
Proof.
  unfold bootstrapPackage. cbn [async_series]. rewrite !run_bind.
  unfold mkdirp at 1, call.
  destruct (FileSystemUtilities_mkdirp _ (world st)) as [[e|] w]; [done|].
  rewrite run_bind.
  destruct (installExternalPackages this pkg _) as [[[e|]|e] s2]; [done| |done].
  rewrite run_bind.
  destruct (linkDependenciesForPackage build this pkg s2) as [[[e|]|e] s3]; done.
Qed.

(** The shape of the trace of a pipeline: the events of the install phase,
    then the events of the link phase, then, unless an exception was thrown,
    the tick of the progress bar. *)
Lemma bootstrapPackage_shape (pkg : Package) (st : State World) :
  ∃ evs1 evs2,
    Forall (install_phase_event pkg) evs1
    ∧ (count_events is_install evs1 ≤ 1)%nat
    ∧ Forall (link_phase_event build this pkg) evs2
    ∧ match (bootstrapPackage build this pkg st).1 with
      | Returned _ =>
          trace (bootstrapPackage build this pkg st).2
          = trace st ++ evs1 ++ evs2 ++ [EvProgressTick (name pkg)]
      | Thrown _ =>
          trace (bootstrapPackage build this pkg st).2 = trace st ++ evs1 ++ evs2
      end.
Proof.
  rewrite bootstrapPackage_run.
  destruct (FileSystemUtilities_mkdirp _ (world st)) as [[e|] w]; cbv zeta.
  { exists [EvMkdirp (nodeModulesLocation pkg) (Some e)], [].
    split; [by repeat constructor|]. split; [cbn; lia|]. split; [constructor|].
    cbn. rewrite <- ?app_assoc, ?app_nil_r. reflexivity. }
  set (s1 := mkState w (modules st) (trace st ++ [EvMkdirp (nodeModulesLocation pkg) None])).
  destruct (emits_install_phase pkg s1) as (evsI & HtrI & HokI).
  destruct (install_at_most_once pkg s1) as (evsI' & HtrI' & HcountI).
  rewrite HtrI in HtrI'. apply app_inv_head in HtrI'. subst evsI'.
  destruct (installExternalPackages this pkg s1) as [[[e|]|e] s2];
    cbn [fst snd] in *.
  - exists (EvMkdirp (nodeModulesLocation pkg) None :: evsI), [].
    split; [by constructor|]. split; [exact HcountI|]. split; [constructor|].
    cbn. rewrite HtrI. subst s1. cbn. rewrite <- ?app_assoc, ?app_nil_r; reflexivity.
  - destruct (emits_link_phase pkg s2) as (evsL & HtrL & HokL).
    exists (EvMkdirp (nodeModulesLocation pkg) None :: evsI), evsL.
    split; [by constructor|]. split; [exact HcountI|]. split; [done|].
    destruct (linkDependenciesForPackage build this pkg s2) as [[r|e] s3];
      cbn in *; rewrite HtrL, HtrI; subst s1; cbn; rewrite <- ?app_assoc, ?app_nil_r; reflexivity.
  - exists (EvMkdirp (nodeModulesLocation pkg) None :: evsI), [].
    split; [by constructor|]. split; [exact HcountI|]. split; [constructor|].
    cbn. rewrite HtrI. subst s1. cbn. rewrite <- ?app_assoc, ?app_nil_r; reflexivity.
Qed.

(** X4. Within a pipeline the installer is called before any sibling is
    linked, at most once, and in the location of the package: the trace of
    a pipeline splits in two parts, the first without any operation of
    linking and without warning, the second without any call of the
    installer. *)
Theorem install_precedes_linking (pkg : Package) (st : State World) :
  ∃ evs1 evs2,
    trace (bootstrapPackage build this pkg st).2 = trace st ++ evs1 ++ evs2
    ∧ count_events is_link_operation evs1 = 0
    ∧ count_events is_warning evs1 = 0
    ∧ (count_events is_install evs1 ≤ 1)%nat
    ∧ (∀ dir specs r, EvInstallInDir dir specs r ∈ evs1 → dir = location pkg)
    ∧ count_events is_install evs2 = 0.
Proof.
  destruct (bootstrapPackage_shape pkg st) as (evs1 & evs2 & H1 & Hcount & H2 & Htr).
  assert (Hlink : Forall (λ ev, is_install ev = false) evs2).
  { eapply Forall_impl; [exact H2|]. intros ev Hev.
    by apply link_phase_event_kind in Hev as (? & _). }
  exists evs1, (evs2 ++ match (bootstrapPackage build this pkg st).1 with
                        | Returned _ => [EvProgressTick (name pkg)]
                        | Thrown _ => []
                        end).
  split; [|split; [|split; [|split; [done|split]]]].
  - destruct (bootstrapPackage build this pkg st).1; rewrite Htr, ?app_nil_r; done.
  - apply count_events_none. eapply Forall_impl; [exact H1|].
    intros ev Hev. by apply install_phase_event_kind in Hev as (? & _).
  - apply count_events_none. eapply Forall_impl; [exact H1|].
    intros ev Hev. by apply install_phase_event_kind in Hev as (_ & ? & _).
  - intros dir specs r Hin. rewrite Forall_forall in H1. by apply (H1 _ Hin).
  - rewrite count_events_app, (count_events_none _ _ Hlink).
    by destruct (bootstrapPackage build this pkg st).1.
Qed.


Lemma matching_events_warnings (pkg dependency : Package) :
  count_events is_warning (matching_events pkg dependency true)
  = if mismatched pkg dependency then 1 else 0.
Proof.
  unfold matching_events, mismatched.
  destruct (js_falsy _); [done|]. by destruct (semver_satisfies _ _).
Qed.

Lemma mismatched_not_matching (pkg dependency : Package) :
  dependencyMatches pkg dependency = true → mismatched pkg dependency = false.
Proof.
  unfold dependencyMatches, mismatched.
  destruct (js_falsy _); [done|]. by destruct (semver_satisfies _ _).
Qed.

Lemma linkCandidate_warnings (pkg dependency : Package) :
  triple (linkCandidate build this pkg dependency)
    (λ _ evs, count_events is_warning evs = if mismatched pkg dependency then 1 else 0).
Proof.
  intros st. rewrite linkCandidate_run. cbv zeta.
  destruct (dependencyMatches pkg dependency) eqn:Hm.
  - match goal with |- context [createLinkedDependency _ _ ?a ?b ?c ?s1] =>
      destruct (emits_createLinkedDependency build this a b c s1) as (evs & Htr & Hok) end.
    exists (matching_events pkg dependency true ++ evs). split.
    + rewrite Htr. cbn. by rewrite <- app_assoc.
    + rewrite count_events_app, matching_events_warnings.
      rewrite (count_events_none _ evs); [lia|].
      eapply Forall_impl; [exact Hok|]. intros ev Hev.
      by apply pair_event_kind in Hev as (_ & ? & _).
  - exists (matching_events pkg dependency true). split; [done|].
    apply matching_events_warnings.
Qed.

Lemma async_each_count {A} (kind : Event → bool) (n : A → nat) (arr : list A)
    (iterator : A → M (option Error)) :
  (∀ x, triple (iterator x) (λ _ evs, count_events kind evs = n x)) →
  triple (async_each arr iterator)
    (λ r evs, (∀ e, r ≠ Thrown e) → count_events kind evs = sum_list (n <$> arr)).
Proof.
  intros Hit. induction arr as [|x arr IH].
  - apply triple_ret. done.
  - cbn [async_each]. eapply triple_bind; [apply Hit| |].
    + intros err evs1 H1; simpl in *.
      eapply triple_bind; [exact IH| |].
      * intros rest evs2 H2; simpl in *. apply triple_ret. intros _.
        rewrite app_nil_r, count_events_app, H1, H2; done.
      * intros e evs2 _ Hne. by destruct (Hne e).
    + intros e evs1 _ Hne; simpl in *. by destruct (Hne e).
Qed.

Lemma sum_list_indicator {A} (f : A → bool) (l : list A) :
  sum_list ((λ x, if f x then 1 else 0) <$> l) = length (List.filter f l).
Proof. induction l as [|x l IH]; [done|]. cbn. destruct (f x); cbn; lia. Qed.

(** X6. In a link phase that returns, the version-mismatch warning is logged
    exactly once for each package of the workspace that the dependent
    declares with a non-empty range that its version does not satisfy, and
    for no other; the install phase, which evaluates the same pairs, logs
    no warning. *)
Theorem one_warning_per_mismatch (pkg : Package) (st st' : State World)
    (r : option Error) :
  linkDependenciesForPackage build this pkg st = (Returned r, st') →
  (∃ evs, trace st' = trace st ++ evs
          ∧ count_events is_warning evs
            = length (List.filter (mismatched pkg) (packages this)))
  ∧ (∀ s, ∃ evs, trace (installExternalPackages this pkg s).2 = trace s ++ evs
                 ∧ count_events is_warning evs = 0).
Proof.
  intros Hrun. split.
  - pose proof (async_each_count is_warning
                  (λ d, if mismatched pkg d then 1 else 0) (packages this)
                  (linkCandidate build this pkg) (linkCandidate_warnings pkg)) as Hcount.
    destruct (triple_trace _ _ _ _ _ Hcount Hrun) as (evs & Htr & Hc).
    exists evs. split; [done|]. rewrite Hc by done. apply sum_list_indicator.
  - intros s. destruct (emits_install_phase pkg s) as (evs & Htr & Hok).
    exists evs. split; [done|]. apply count_events_none.
    eapply Forall_impl; [exact Hok|]. intros ev Hev.
    by apply install_phase_event_kind in Hev as (_ & ? & _).
Qed.

Lemma linkDependenciesForPackage_undeclared (pkg : Package) (st : State World) :
  allDependencies pkg = ∅ →
  linkDependenciesForPackage build this pkg st = (Returned None, st).
Proof.
  intros Hdeps. unfold linkDependenciesForPackage.
  induction (packages this) as [|candidate l IH]; [done|].
  cbn [async_each]. rewrite run_bind, linkCandidate_run. cbv zeta.
  assert (Hevents : matching_events pkg candidate true = []).
  { unfold matching_events. by rewrite Hdeps, lookup_empty. }
  assert (Hm : dependencyMatches pkg candidate = false).
  { unfold dependencyMatches. by rewrite Hdeps, lookup_empty. }
  rewrite Hm, Hevents, app_nil_r, state_eta, run_bind, IH. done.
Qed.

Lemma installExternalPackages_undeclared (pkg : Package) (st : State World) :
  allDependencies pkg = ∅ →
  installExternalPackages this pkg st = (Returned None, st).
Proof.
  intros Hdeps. unfold installExternalPackages, externalPackages, Object_keys.
  rewrite Hdeps, map_to_list_empty. done.
Qed.

(** X7. The pipeline of a package that declares no dependency only creates
    its dependency directory and ticks: nothing is read, installed or
    linked, and the result is the one of the creation of the directory. *)
Theorem pipeline_without_dependencies (pkg : Package) (st : State World) :
  allDependencies pkg = ∅ →
  bootstrapPackage build this pkg st
  = let '(made, w) := FileSystemUtilities_mkdirp (nodeModulesLocation pkg) (world st) in
    (Returned made,
     mkState w (modules st)
       (trace st ++ [EvMkdirp (nodeModulesLocation pkg) made;
                     EvProgressTick (name pkg)])).
Proof.
  intros Hdeps. rewrite bootstrapPackage_run.
  destruct (FileSystemUtilities_mkdirp _ (world st)) as [[e|] w]; cbv zeta.
  - cbn. by rewrite <- app_assoc.
  - rewrite installExternalPackages_undeclared, linkDependenciesForPackage_undeclared
      by done.
    cbn. by rewrite <- app_assoc.
Qed.

Lemma List_filter_sublist {A} (f : A → bool) (l : list A) :
  List.filter f l `sublist_of` l.
Proof.
  induction l as [|x l IH]; [done|]. cbn.
  destruct (f x); [by apply sublist_skip | by apply sublist_cons].
Qed.

(** X8. The batch of the external installer is computed without changing
    the world; it holds the specifications of declared dependencies only,
    each dependency at most once, in the order of the keys. *)
Theorem batch_follows_the_declared_keys (pkg : Package) (st : State World) :
  ∃ st',
    externalPackages this pkg st
    = (Returned (map (install_spec pkg) (external_names this st pkg)), st')
    ∧ world st' = world st
    ∧ external_names this st pkg `sublist_of` Object_keys (allDependencies pkg)
    ∧ NoDup (external_names this st pkg).
Proof.
  destruct (externalPackages_run this pkg st) as (st' & Hrun & Hworld & _).
  exists st'. split; [done|]. split; [done|].
  assert (Hsub : external_names this st pkg `sublist_of` Object_keys (allDependencies pkg)).
  { unfold external_names. etrans; apply List_filter_sublist. }
  split; [done|]. eapply sublist_NoDup; [|exact Hsub].
  apply NoDup_fst_map_to_list.
Qed.

(** The installer is called by nothing but the last step of the install
    phase, and its result is the result of the phase. *)
Lemma installExternalPackages_result (pkg : Package) :
  triple (installExternalPackages this pkg)
    (λ r evs, ∀ dir specs r', EvInstallInDir dir specs r' ∈ evs → r = Returned r').
Proof.
  unfold installExternalPackages.
  eapply triple_bind; [apply (emits_externalPackages this (λ ev, is_install ev = false))| |];
    try done.
  - intros batch evs1 H1; simpl in *.
    assert (Hno : ∀ dir specs r', EvInstallInDir dir specs r' ∉ evs1).
    { intros dir specs r' Hin. rewrite Forall_forall in H1. by specialize (H1 _ Hin). }
    destruct batch as [|spec specs].
    + apply triple_ret. intros dir specs r'. rewrite app_nil_r. intros Hin.
      by destruct (Hno _ _ _ Hin).
    + apply triple_call. intros r dir specs' r'.
      rewrite elem_of_app, list_elem_of_singleton.
      intros [Hin|[= _ _ ->]]; [by destruct (Hno _ _ _ Hin)|done].
  - intros e evs1 H1 dir specs r' Hin; simpl in *.
    rewrite Forall_forall in H1. by specialize (H1 _ Hin).
Qed.

(** X12. When the installer fails in a pipeline, the pipeline reports the
    error of the installer, no sibling is linked and no warning is logged:
    the link phase is not entered. *)
Theorem failed_install_skips_linking (pkg : Package) (st : State World)
    (dir : string) (specs : list string) (e : Error) (evs : list Event) :
  trace (bootstrapPackage build this pkg st).2 = trace st ++ evs →
  EvInstallInDir dir specs (Some e) ∈ evs →
  (bootstrapPackage build this pkg st).1 = Returned (Some e)
  ∧ count_events is_link_operation evs = 0
  ∧ count_events is_warning evs = 0.
Proof.
  rewrite bootstrapPackage_run.
  destruct (FileSystemUtilities_mkdirp _ (world st)) as [[e0|] w]; cbv zeta.
  { cbn. rewrite <- app_assoc. intros Htr%app_inv_head Hin. subst evs.
    repeat (apply elem_of_cons in Hin as [Hin|Hin]; [done|]).
    by apply elem_of_nil in Hin. }
  set (s1 := mkState _ _ _).
  destruct (installExternalPackages_result pkg s1) as (evsI & HtrI & Hres).
  destruct (emits_install_phase pkg s1) as (evsI' & HtrI' & HokI).
  assert (evsI' = evsI) as ->
    by (rewrite HtrI in HtrI'; by apply app_inv_head in HtrI').
  clear HtrI'.
  assert (HkindI : count_events is_link_operation evsI = 0
                   ∧ count_events is_warning evsI = 0).
  { split; apply count_events_none; (eapply Forall_impl; [exact HokI|]);
      intros ev Hev; by apply install_phase_event_kind in Hev as (? & ? & _). }
  destruct HkindI as [HlinkI HwarnI].
  destruct (installExternalPackages this pkg s1) as [[[e1|]|e1] s2] eqn:Hinst;
    cbn [fst snd] in *.
  - cbn [trace]. rewrite HtrI. subst s1. cbn [trace]. rewrite <- !app_assoc.
    intros Htr%app_inv_head Hin. subst evs.
    split; [|split].
    + cbn [app] in Hin. apply elem_of_cons in Hin as [Hin|Hin]; [done|].
      apply elem_of_app in Hin as [Hin|Hin].
      * specialize (Hres _ _ _ Hin). by injection Hres as ->.
      * apply list_elem_of_singleton in Hin. done.
    + rewrite !count_events_app, HlinkI. done.
    + rewrite !count_events_app, HwarnI. done.
  - destruct (emits_link_phase pkg s2) as (evsL & HtrL & HokL).
    assert (Hnot : EvInstallInDir dir specs (Some e) ∈
                     [EvMkdirp (nodeModulesLocation pkg) None] ++ evsI ++ evsL → False).
    { cbn [app]. intros Hin. apply elem_of_cons in Hin as [Hin|Hin]; [done|].
      apply elem_of_app in Hin as [Hin|Hin].
      - by specialize (Hres _ _ _ Hin).
      - rewrite Forall_forall in HokL. specialize (HokL _ Hin).
        by apply link_phase_event_kind in HokL as (? & _). }
    destruct (linkDependenciesForPackage build this pkg s2) as [[r|e2] s3];
      cbn [fst snd trace] in *; rewrite HtrL, HtrI; subst s1; cbn [trace];
      rewrite <- !app_assoc; intros Htr%app_inv_head Hin; subst evs; exfalso.
    + apply Hnot. rewrite !app_assoc in Hin. apply elem_of_app in Hin as [Hin|Hin].
      * by rewrite <- !app_assoc in Hin.
      * apply list_elem_of_singleton in Hin. done.
    + by apply Hnot.
  - rewrite HtrI. subst s1. cbn [trace]. rewrite <- !app_assoc.
    intros Htr%app_inv_head Hin. subst evs.
    cbn [app] in Hin. apply elem_of_cons in Hin as [Hin|Hin]; [done|].
    by specialize (Hres _ _ _ Hin).
Qed.

End Pipeline.

(** ** The tasks of a run, one after the other *)

Section Schedule.
Context {World : Type}.
Local Abbreviation M := (M World).

Lemma emits_run_in_order φ (tasks : list (M (option Error))) :
  Forall (emits φ) tasks → emits φ (run_in_order tasks).
Proof.
  induction 1 as [|task tasks Ht _ IH]; [apply emits_ret|].
  cbn [run_in_order]. apply emits_bind; [done|]. intros err.
  apply emits_bind; [done|]. intros; apply emits_ret.
Qed.

(** Every task of a schedule that returns was run, and its result is at
    its index. *)
Lemma run_in_order_elem (tasks : list (M (option Error))) (k : nat)
    (task : M (option Error)) (st st' : State World)
    (results : list (option Error)) :
  Forall (emits (λ _, True)) tasks →
  tasks !! k = Some task →
  run_in_order tasks st = (Returned results, st') →
  ∃ s1 s2 r pre post,
    task s1 = (Returned r, s2) ∧ results !! k = Some r
    ∧ trace s1 = trace st ++ pre ∧ trace st' = trace s2 ++ post.
Proof.
  intros Hgrow. revert k st results.
  induction Hgrow as [|t tasks Ht Hts IH]; intros k st results Hk Hrun; [done|].
  cbn [run_in_order] in Hrun.
  apply bind_returned in Hrun as (err & s2 & Hhead & Hrun).
  apply bind_returned in Hrun as (errs & s3 & Hrest & Hrun).
  rewrite run_ret in Hrun. injection Hrun as <- <-.
  destruct k as [|k].
  - cbn in Hk. injection Hk as <-.
    destruct (triple_trace _ _ _ _ _ (emits_run_in_order _ tasks Hts) Hrest)
      as (post & Hpost & _).
    exists st, s2, err, [], post. by rewrite app_nil_r.
  - cbn in Hk.
    destruct (IH _ _ _ Hk Hrest) as (s1 & s2' & r & pre & post & Hit & Hres & Hpre & Hpost).
    destruct (triple_trace _ _ _ _ _ Ht Hhead) as (evh & Hevh & _).
    exists s1, s2', r, (evh ++ pre), post.
    split; [done|]. split; [done|]. split; [|done]. by rewrite Hpre, Hevh, app_assoc.
Qed.

End Schedule.

(** ** The run of the command *)

Section Orchestrator.
Context {World : Type} `{!Env World}.
Variable build : Build.
Variable this : Command.
Local Abbreviation M := (M World).

Lemma emits_bootstrapPackage_quiet (pkg : Package) :
  emits (λ ev, is_success ev = false) (bootstrapPackage build this pkg).
Proof.
  intros st.
  destruct (bootstrapPackage_shape build this pkg st) as (evs1 & evs2 & H1 & _ & H2 & Htr).
  assert (Hquiet : Forall (λ ev, is_success ev = false) (evs1 ++ evs2)).
  { apply Forall_app. split.
    - eapply Forall_impl; [exact H1|]. intros ev Hev.
      by apply install_phase_event_kind in Hev as (_ & _ & _ & ?).
    - eapply Forall_impl; [exact H2|]. intros ev Hev.
      by apply link_phase_event_kind in Hev as (_ & _ & ?). }
  destruct (bootstrapPackage build this pkg st).1.
  - exists (evs1 ++ evs2 ++ [EvProgressTick (name pkg)]). split; [done|].
    rewrite app_assoc. apply Forall_app. split; [done|]. by repeat constructor.
  - exists (evs1 ++ evs2). done.
Qed.

Lemma emits_linkDependencies_quiet :
  emits (λ ev, is_success ev = false) (linkDependencies build this).
Proof.
  unfold linkDependencies.
  apply emits_bind; [by apply emits_log|intros _].
  apply emits_bind; [by apply emits_log|intros _].
  apply emits_bind.
  - apply emits_parallelLimit, Forall_fmap, Forall_forall.
    intros pkg _. apply emits_bootstrapPackage_quiet.
  - intros err. apply emits_bind; [by apply emits_log|intros _; apply emits_ret].
Qed.

(** X9. The success message is logged exactly when [execute] hands
    [(null, true)] to its callback, as the last event of the run and only
    there; a run that fails or throws logs no success message.  The message
    counts the packages of the workspace, whatever the filter of the run
    kept. *)
Theorem success_is_logged_iff_the_run_succeeds (st : State World) :
  ∃ evs,
    count_events is_success evs = 0
    ∧ match (execute build this st).1 with
      | Returned (inr done) =>
          done = true
          ∧ trace (execute build this st).2
            = trace st ++ evs ++ [EvSuccess (success_message this)]
      | Returned (inl _) | Thrown _ =>
          trace (execute build this st).2 = trace st ++ evs
      end.
Proof.
  destruct (emits_linkDependencies_quiet st) as (evs & Htr & Hquiet).
  exists evs. split; [by apply count_events_none|].
  unfold execute. rewrite run_bind.
  destruct (linkDependencies build this st) as [[[e|]|e] s]; [done| |done].
  rewrite run_bind. cbn in *. split; [done|]. by rewrite Htr, <- app_assoc.
Qed.

Lemma linkDependencies_run (others : nat) (st : State World) :
  concurrency this = S others →
  linkDependencies build this st
  = match parallelLimit_pool others
            (map (bootstrapPackage build this)
               (PackageUtilities_filterPackages (packages this)
                  (js_or (flags_ignore this) (bootstrapConfig_ignore this)) true))
            (mkState (world st) (modules st)
               (trace st ++ [EvProgressInit (length (packages this));
                             EvInfo "Linking all dependencies"])) with
    | (Returned err, s) =>
        (Returned err, mkState (world s) (modules s) (trace s ++ [EvProgressTerminate]))
    | (Thrown e, s) => (Thrown e, s)
    end.
Proof.
  intros Hlimit. unfold linkDependencies. rewrite Hlimit. cbn [async_parallelLimit].
  do 2 (rewrite run_bind; unfold log at 1; cbn [world modules trace]).
  rewrite <- app_assoc. cbn [app]. rewrite run_bind.
  destruct (parallelLimit_pool _ _ _) as [[err|e] s]; [|done].
  by rewrite run_bind.
Qed.

Lemma run_in_order_clean (tasks : list (M (option Error))) (st st' : State World) :
  Forall clean tasks →
  run_in_order tasks st = (Returned (replicate (length tasks) None), st') →
  ∃ evs, trace st' = trace st ++ evs ∧ Forall fs_ok evs.
Proof.
  intros Hclean. revert st.
  induction Hclean as [|t tasks Ht _ IH]; intros st Hrun.
  - cbn in Hrun. rewrite run_ret in Hrun. injection Hrun as <-.
    exists []. by rewrite app_nil_r.
  - cbn [run_in_order length replicate] in Hrun.
    apply bind_returned in Hrun as (err & s2 & Hhead & Hrun).
    apply bind_returned in Hrun as (errs & s3 & Hrest & Hrun).
    rewrite run_ret in Hrun. injection Hrun as -> -> <-.
    destruct (triple_trace _ _ _ _ _ Ht Hhead) as (ev1 & Htr1 & Hok1).
    destruct (IH _ Hrest) as (ev2 & Htr2 & Hok2).
    exists (ev1 ++ ev2). split; [by rewrite Htr2, Htr1, app_assoc|].
    apply Forall_app. split; [by apply Hok1|done].
Qed.

(** A pipeline that succeeds linked every candidate that matches. *)
Lemma bootstrapPackage_links (pkg candidate : Package) (s1 s2 : State World) :
  candidate ∈ packages this →
  dependencyMatches pkg candidate = true →
  bootstrapPackage build this pkg s1 = (Returned None, s2) →
  ∃ evs, trace s2 = trace s1 ++ evs ++ [EvProgressTick (name pkg)]
         ∧ link_attempted pkg candidate evs.
Proof.
  intros Hin Hm Hrun. rewrite bootstrapPackage_run in Hrun.
  destruct (FileSystemUtilities_mkdirp _ (world s1)) as [[e|] w]; cbv zeta in Hrun;
    [done|].
  destruct (installExternalPackages this pkg _) as [[[e|]|e] sa] eqn:Hinst;
    [done| |done].
  destruct (linkDependenciesForPackage build this pkg sa) as [[r|e] sb] eqn:Hlink;
    [|done].
  injection Hrun as -> <-.
  destruct (triple_trace _ _ _ _ _ (emits_install_phase this pkg) Hinst)
    as (evsI & HtrI & _).
  destruct (linkDependenciesForPackage_links build this pkg candidate sa sb None
              Hin Hm Hlink) as (evsL & HtrL & r & Hr).
  exists ([EvMkdirp (nodeModulesLocation pkg) None] ++ evsI ++ evsL). split.
  - cbn [trace] in *. rewrite HtrL, HtrI. by rewrite <- !app_assoc.
  - exists r. rewrite !elem_of_app. right. by right.
Qed.

(** X10. When a run with at least one worker succeeds, every package that
    the filter kept had its pipeline run to its tick, every package of the
    workspace that it declares with a range that the version satisfies was
    linked into its dependency directory, and no operation of the run
    failed with anything but an existing symbolic link. *)
Theorem successful_run_links_every_match (others : nat) (st st' : State World)
    (pkg candidate : Package) :
  concurrency this = S others →
  linkDependencies build this st = (Returned None, st') →
  pkg ∈ PackageUtilities_filterPackages (packages this)
          (js_or (flags_ignore this) (bootstrapConfig_ignore this)) true →
  candidate ∈ packages this →
  dependencyMatches pkg candidate = true →
  ∃ evs, trace st' = trace st ++ evs
         ∧ link_attempted pkg candidate evs
         ∧ EvProgressTick (name pkg) ∈ evs
         ∧ Forall fs_ok evs.
Proof.
  intros Hlimit Hrun Hpkg Hcand Hm.
  rewrite (linkDependencies_run others st Hlimit) in Hrun.
  set (tasks := map (bootstrapPackage build this) _) in Hrun.
  set (st0 := mkState _ _ _) in Hrun.
  destruct (parallelLimit_pool others tasks st0) as [[err|e] s] eqn:Hpool; [|done].
  injection Hrun as -> <-.
  apply parallelLimit_pool_none in Hpool.
  apply list_elem_of_lookup in Hpkg as [k Hk].
  assert (Htask : tasks !! k = Some (bootstrapPackage build this pkg)).
  { subst tasks. by rewrite list_lookup_fmap, Hk. }
  assert (Hgrow : Forall (emits (λ _, True)) tasks).
  { subst tasks. apply Forall_fmap, Forall_forall. intros p _.
    eapply emits_impl; [|apply emits_bootstrapPackage_quiet]. done. }
  assert (Hclean : Forall (clean (World:=World)) tasks).
  { subst tasks. apply Forall_fmap, Forall_forall. intros p _.
    apply clean_bootstrapPackage. }
  destruct (run_in_order_elem _ _ _ _ _ _ Hgrow Htask Hpool)
    as (s1 & s2 & r & pre & post & Hit & Hres & Hpre & Hpost).
  apply lookup_replicate in Hres as [-> _].
  destruct (bootstrapPackage_links pkg candidate s1 s2 Hcand Hm Hit)
    as (evs & Htr & r & Hr).
  destruct (run_in_order_clean tasks st0 s Hclean Hpool) as (all & Hall & Hok).
  assert (Heq : all = pre ++ evs ++ [EvProgressTick (name pkg)] ++ post).
  { apply (app_inv_head (trace st0)). rewrite <- Hall, Hpost, Htr, Hpre.
    by rewrite <- !app_assoc. }
  exists ([EvProgressInit (length (packages this)); EvInfo "Linking all dependencies"]
          ++ all ++ [EvProgressTerminate]).
  split; [|split; [|split]].
  - cbn [trace]. rewrite Hall. subst st0. cbn [trace]. by rewrite <- !app_assoc.
  - exists r. rewrite Heq, !elem_of_app. right. left. right. left. done.
  - rewrite Heq, !elem_of_app. right. left. right. right. left. by left.
  - apply Forall_app. split; [by repeat constructor|].
    apply Forall_app. split; [done|by repeat constructor].
Qed.

End Orchestrator.

(** * The matched files of a linked sibling *)

Section MatchedFiles.
Context {World : Type} `{!Env World}.
Variable build : Build.
Variable this : Command.
Local Abbreviation M := (M World).





End MatchedFiles.

(** * A pair is linked once *)

Section LinkedOnce.
Context {World : Type} `{!Env World}.
Variable build : Build.
Variable this : Command.
Local Abbreviation M := (M World).

Lemma filter_reset_none (evs : list Event) :
  Forall (λ ev, is_reset ev = false) evs → List.filter is_reset evs = [].
Proof. induction 1 as [|ev evs Hev _ IH]; [done|]. cbn. by rewrite Hev. Qed.

(** [createLinkedDependency] resets its target once, first. *)
Lemma createLinkedDependency_one_reset (src dest name : string) :
  triple (createLinkedDependency build this src dest name)
    (λ _ evs, ∃ r, List.filter is_reset evs = [EvRimraf dest r]).
Proof.
  intros st. unfold createLinkedDependency. rewrite run_bind. unfold rimraf at 1, call.
  destruct (FileSystemUtilities_rimraf dest (world st)) as [[e|] w].
  - exists [EvRimraf dest (Some e)]. split; [done|]. by exists (Some e).
  - match goal with |- context [mbind ?k ?m ?s] => set (st1 := s); set (rest := mbind k m) end.
    assert (Hrest : emits (λ ev, is_reset ev = false) rest).
    { subst rest. unfold mkdirp.
      apply emits_bind; [by apply emits_call|].
      intros [e|]; [apply emits_ret|].
      eapply emits_impl; [|apply emits_createLinkedDependencyFiles].
      intros ev Hev. by destruct ev. }
    destruct (Hrest st1) as (evs & Htr & Hnone).
    exists (EvRimraf dest None :: evs). split.
    + rewrite Htr. subst st1. cbn. by rewrite <- app_assoc.
    + exists None. cbn. by rewrite filter_reset_none.
Qed.

(** The iteration over a candidate resets the target of the candidate
    once when it matches, and resets nothing otherwise. *)
Lemma linkCandidate_resets (pkg candidate : Package) :
  triple (linkCandidate build this pkg candidate)
    (λ _ evs, Forall2 (resets_target pkg)
                (if dependencyMatches pkg candidate then [candidate] else [])
                (List.filter is_reset evs)).
Proof.
  intros st. rewrite linkCandidate_run. cbv zeta.
  assert (Hm : List.filter is_reset (matching_events pkg candidate true) = []).
  { unfold matching_events. destruct (js_falsy _); [done|]. cbn.
    by destruct (semver_satisfies _ _). }
  destruct (dependencyMatches pkg candidate).
  - match goal with |- context [createLinkedDependency _ _ ?a ?b ?n ?s1] =>
      destruct (createLinkedDependency_one_reset a b n s1) as (evs & Htr & r & Hr) end.
    exists (matching_events pkg candidate true ++ evs). split.
    + rewrite Htr. cbn. by rewrite <- app_assoc.
    + rewrite List.filter_app, Hm, Hr. cbn. repeat constructor. by exists r.
  - exists (matching_events pkg candidate true). split; [done|]. rewrite Hm. constructor.
Qed.

(** The events of a kind of an iteration, when each element that is kept
    issues one such event and the others none. *)
Lemma async_each_filtered {A} (kind : Event → bool) (keep : A → bool)
    (R : A → Event → Prop) (arr : list A) (iterator : A → M (option Error)) :
  (∀ x, triple (iterator x)
          (λ _ evs, Forall2 R (if keep x then [x] else []) (List.filter kind evs))) →
  triple (async_each arr iterator)
    (λ r evs, ∃ l, l `prefix_of` arr ∧ ((∀ e, r ≠ Thrown e) → l = arr)
                   ∧ Forall2 R (List.filter keep l) (List.filter kind evs)).
Proof.
  intros Hit.
  assert (Hcons : ∀ x l evs1 evs2,
            Forall2 R (if keep x then [x] else []) (List.filter kind evs1) →
            Forall2 R (List.filter keep l) (List.filter kind evs2) →
            Forall2 R (List.filter keep (x :: l)) (List.filter kind (evs1 ++ evs2))).
  { intros x l evs1 evs2 H1 H2. rewrite List.filter_app. cbn [List.filter].
    destruct (keep x).
    - change (x :: List.filter keep l) with ([x] ++ List.filter keep l).
      by apply Forall2_app.
    - apply Forall2_nil_inv_l in H1. by rewrite H1. }
  induction arr as [|x arr IH].
  - apply triple_ret. exists []. split; [done|]. split; [done|]. constructor.
  - cbn [async_each]. eapply triple_bind; [apply Hit| |].
    + intros err evs1 H1; simpl in *.
      eapply triple_bind; [exact IH| |].
      * intros rest evs2 (l & Hl & Hall & H2); simpl in *. apply triple_ret.
        exists (x :: l). split; [by apply prefix_cons|]. split.
        { intros _. f_equal. by apply Hall. }
        rewrite app_nil_r. by apply Hcons.
      * intros e evs2 (l & Hl & _ & H2); simpl in *.
        exists (x :: l). split; [by apply prefix_cons|]. split.
        { intros Hne. by destruct (Hne e). }
        by apply Hcons.
    + intros e evs1 H1; simpl in *.
      exists [x]. split; [apply prefix_cons, prefix_nil|]. split.
      { intros Hne. by destruct (Hne e). }
      rewrite <- (app_nil_r evs1). apply Hcons; [done|constructor].
Qed.

(** The installer receives the batch computed by [externalPackages]. *)
Lemma installExternalPackages_batch (pkg : Package) (s : State World) :
  ∃ evs,
    trace (installExternalPackages this pkg s).2 = trace s ++ evs
    ∧ ∀ dir specs r, EvInstallInDir dir specs r ∈ evs →
        specs = map (install_spec pkg) (external_names this s pkg).
Proof.
  unfold installExternalPackages. rewrite run_bind.
  destruct (externalPackages_run this pkg s) as (s' & Hrun & _).
  destruct (emits_externalPackages this (λ ev, is_install ev = false) pkg
              ltac:(done) ltac:(done) ltac:(done) s) as (evsX & HtrX & HnoX).
  rewrite Hrun in *. cbn [snd] in HtrX.
  assert (Hno : ∀ dir specs r, EvInstallInDir dir specs r ∉ evsX).
  { intros dir specs r Hin. rewrite Forall_forall in HnoX. by specialize (HnoX _ Hin). }
  destruct (map (install_spec pkg) (external_names this s pkg)) as [|spec specs] eqn:Hbatch.
  - rewrite run_ret. exists evsX. split; [done|].
    intros dir specs r Hin. by destruct (Hno _ _ _ Hin).
  - unfold installInDir, call.
    destruct (NpmUtilities_installInDir _ _ _) as [r w].
    exists (evsX ++ [EvInstallInDir (location pkg) (spec :: specs) r]). split.
    + cbn. by rewrite HtrX, <- app_assoc.
    + intros dir specs' r' [Hin|Hin]%elem_of_app; [by destruct (Hno _ _ _ Hin)|].
      apply list_elem_of_singleton in Hin. by injection Hin as _ -> _.
Qed.

Lemma install_phase_no_reset (pkg : Package) (evs : list Event) :
  Forall (install_phase_event pkg) evs → List.filter is_reset evs = [].
Proof.
  intros Hall. apply filter_reset_none. eapply Forall_impl; [exact Hall|].
  intros ev Hev. by destruct ev.
Qed.

(** The resets and the calls of the installer of a pipeline: the targets
    of the matching candidates that the link phase reached, one reset each,
    in order; the installer receives names that no candidate that matches
    bears. *)
Lemma bootstrapPackage_links_once (pkg : Package) (st : State World) :
  NoDup (map name (packages this)) →
  ∃ evs attempted,
    trace (bootstrapPackage build this pkg st).2 = trace st ++ evs
    ∧ attempted `prefix_of` packages this
    ∧ ((bootstrapPackage build this pkg st).1 = Returned None →
       attempted = packages this)
    ∧ Forall2 (resets_target pkg) (List.filter (dependencyMatches pkg) attempted)
        (List.filter is_reset evs)
    ∧ (∀ dir specs r, EvInstallInDir dir specs r ∈ evs →
         ∃ names, specs = map (install_spec pkg) names
                  ∧ ∀ candidate, candidate ∈ packages this →
                                 dependencyMatches pkg candidate = true →
                                 name candidate ∉ names).
Proof.
  intros Hnd. rewrite bootstrapPackage_run.
  destruct (FileSystemUtilities_mkdirp _ (world st)) as [[e0|] w]; cbv zeta.
  { eexists [_; _], []. split; [cbn; by rewrite <- app_assoc|].
    split; [apply prefix_nil|]. split; [done|]. split; [constructor|].
    intros dir specs r Hin.
    repeat (apply elem_of_cons in Hin as [Hin|Hin]; [done|]).
    by apply elem_of_nil in Hin. }
  set (s1 := mkState _ _ _).
  destruct (installExternalPackages_batch pkg s1) as (evsI & HtrI & Hbatch).
  destruct (emits_install_phase this pkg s1) as (evsI' & HtrI' & HokI).
  assert (evsI' = evsI) as ->
    by (rewrite HtrI in HtrI'; by apply app_inv_head in HtrI').
  clear HtrI'.
  pose proof (install_phase_no_reset pkg evsI HokI) as HresetI.
  assert (Hnames : ∀ dir specs r,
            EvInstallInDir dir specs r
            ∈ [EvMkdirp (nodeModulesLocation pkg) None] ++ evsI →
            ∃ names, specs = map (install_spec pkg) names
                     ∧ ∀ candidate, candidate ∈ packages this →
                                    dependencyMatches pkg candidate = true →
                                    name candidate ∉ names).
  { intros dir specs r Hin. cbn [app] in Hin.
    apply elem_of_cons in Hin as [Hin|Hin]; [done|].
    exists (external_names this s1 pkg). split; [by eapply Hbatch|].
    intros candidate Hc Hm. rewrite external_names_iff by done.
    intros (_ & Hsib & _). apply Hsib. by exists candidate. }
  destruct (installExternalPackages this pkg s1) as [[[e1|]|e1] s2] eqn:Hinst;
    cbn [fst snd] in *.
  - exists ([EvMkdirp (nodeModulesLocation pkg) None] ++ evsI
            ++ [EvProgressTick (name pkg)]), [].
    split; [cbn [trace]; rewrite HtrI; subst s1; cbn [trace]; by rewrite <- !app_assoc|].
    split; [apply prefix_nil|]. split; [done|]. split.
    + rewrite !List.filter_app, HresetI. constructor.
    + intros dir specs r Hin. rewrite app_assoc in Hin.
      apply elem_of_app in Hin as [Hin|Hin]; [by eapply Hnames|].
      by apply list_elem_of_singleton in Hin.
  - pose proof (async_each_filtered is_reset (dependencyMatches pkg) (resets_target pkg)
                  (packages this) (linkCandidate build this pkg)
                  (linkCandidate_resets pkg) s2) as (evsL & HtrL & Hlinked).
    fold (linkDependenciesForPackage build this pkg) in HtrL, Hlinked.
    destruct (emits_link_phase build this pkg s2) as (evsL' & HtrL' & HokL).
    assert (evsL' = evsL) as ->
      by (rewrite HtrL in HtrL'; by apply app_inv_head in HtrL').
    clear HtrL'.
    assert (HnoL : ∀ dir specs r, EvInstallInDir dir specs r ∉ evsL).
    { intros dir specs r Hin. rewrite Forall_forall in HokL. specialize (HokL _ Hin).
      by apply link_phase_event_kind in HokL as (? & _). }
    destruct Hlinked as (attempted & Hprefix & Hall & Hresets).
    destruct (linkDependenciesForPackage build this pkg s2) as [[r|e2] s3];
      cbn [fst snd trace] in *.
    + exists ([EvMkdirp (nodeModulesLocation pkg) None] ++ evsI ++ evsL
              ++ [EvProgressTick (name pkg)]), attempted.
      split; [rewrite HtrL, HtrI; subst s1; cbn [trace]; by rewrite <- !app_assoc|].
      split; [done|]. split; [intros _; by apply Hall|]. split.
      * rewrite !List.filter_app, HresetI. cbn. by rewrite app_nil_r.
      * intros dir specs r' Hin. rewrite app_assoc in Hin.
        apply elem_of_app in Hin as [Hin|Hin]; [by eapply Hnames|].
        apply elem_of_app in Hin as [Hin|Hin]; [by destruct (HnoL _ _ _ Hin)|].
        by apply list_elem_of_singleton in Hin.
    + exists ([EvMkdirp (nodeModulesLocation pkg) None] ++ evsI ++ evsL), attempted.
      split; [rewrite HtrL, HtrI; subst s1; cbn [trace]; by rewrite <- !app_assoc|].
      split; [done|]. split; [done|]. split.
      * rewrite !List.filter_app, HresetI. done.
      * intros dir specs r' Hin. rewrite app_assoc in Hin.
        apply elem_of_app in Hin as [Hin|Hin]; [by eapply Hnames|].
        by destruct (HnoL _ _ _ Hin).
  - exists ([EvMkdirp (nodeModulesLocation pkg) None] ++ evsI), [].
    split; [rewrite HtrI; subst s1; cbn [trace]; by rewrite <- !app_assoc|].
    split; [apply prefix_nil|]. split; [done|]. split.
    + rewrite !List.filter_app, HresetI. constructor.
    + intros dir specs r Hin. by eapply Hnames.
Qed.

(** The iteration over a declared candidate starts with the evaluation of
    the compatibility. *)
Lemma linkCandidate_checks_first (pkg sibling : Package) (range : string)
    (s : State World) :
  allDependencies pkg !! name sibling = Some range →
  range ≠ EmptyString →
  ∃ evs, trace (linkCandidate build this pkg sibling s).2
         = trace s ++ EvSatisfies (Some (version sibling)) (Some range)
                        (semver_satisfies (Some (version sibling)) (Some range)) :: evs.
Proof.
  intros Hrange Hne.
  destruct (matching_events_check pkg sibling range true Hrange Hne) as (evs0 & Hev).
  destruct (emits_linkCandidate build this pkg sibling s) as (evs & Htr & _).
  revert Htr. rewrite linkCandidate_run. cbv zeta. rewrite Hev.
  destruct (dependencyMatches pkg sibling).
  - match goal with |- context [createLinkedDependency _ _ ?a ?b ?c ?s1] =>
      destruct (emits_createLinkedDependency build this a b c s1) as (evs1 & -> & _) end.
    cbn [trace]. intros _. exists (evs0 ++ evs1). by rewrite <- app_assoc.
  - intros _. by exists evs0.
Qed.

(** In a pipeline that succeeds, the compatibility of a declared sibling
    is evaluated in the install phase and again in the link phase. *)
Lemma bootstrapPackage_checks_twice (pkg sibling : Package) (range : string)
    (st st' : State World) :
  NoDup (map name (packages this)) →
  sibling ∈ packages this →
  allDependencies pkg !! name sibling = Some range →
  range ≠ EmptyString →
  bootstrapPackage build this pkg st = (Returned None, st') →
  let check := EvSatisfies (Some (version sibling)) (Some range)
                 (semver_satisfies (Some (version sibling)) (Some range)) in
  ∃ evsI evsL,
    trace st' = trace st ++ [EvMkdirp (nodeModulesLocation pkg) None] ++ evsI ++ evsL
                  ++ [EvProgressTick (name pkg)]
    ∧ Forall (install_phase_event pkg) evsI
    ∧ Forall (link_phase_event build this pkg) evsL
    ∧ check ∈ evsI ∧ check ∈ evsL.
Proof.
  intros Hnd Hin Hrange Hne Hrun check. rewrite bootstrapPackage_run in Hrun.
  destruct (FileSystemUtilities_mkdirp _ (world st)) as [[e0|] w]; cbv zeta in Hrun;
    [done|].
  set (s1 := mkState _ _ _) in Hrun.
  destruct (emits_install_phase this pkg s1) as (evsI & HtrI & HokI).
  destruct (installExternalPackages this pkg s1) as [[[e1|]|e1] s2] eqn:Hinst;
    [done| |done].
  destruct (emits_link_phase build this pkg s2) as (evsL & HtrL & HokL).
  destruct (linkDependenciesForPackage build this pkg s2) as [[r|e2] s3] eqn:Hlink;
    [|done].
  injection Hrun as -> <-. cbn [fst snd] in *.
  exists evsI, evsL. split; [|split; [done|split; [done|split]]].
  - cbn [trace]. rewrite HtrL, HtrI. subst s1. cbn [trace]. by rewrite <- !app_assoc.
  - unfold installExternalPackages in Hinst.
    apply bind_returned in Hinst as (batch & sx & Hext & Hrest).
    destruct (externalPackages_checks_sibling this pkg sibling range s1 Hnd Hin Hrange Hne)
      as (evsX & HtrX & HinX).
    rewrite Hext in HtrX. cbn [snd] in HtrX.
    assert (∃ tail, trace s2 = trace sx ++ tail) as [tail Htail].
    { destruct batch as [|spec specs].
      - rewrite run_ret in Hrest. injection Hrest as <-. exists []. by rewrite app_nil_r.
      - unfold installInDir, call in Hrest.
        destruct (NpmUtilities_installInDir _ _ _) as [r w']. injection Hrest as _ <-.
        by eexists. }
    assert (evsI = evsX ++ tail) as ->.
    { apply (app_inv_head (trace s1)). by rewrite <- HtrI, Htail, HtrX, <- app_assoc. }
    apply elem_of_app. by left.
  - unfold linkDependenciesForPackage in Hlink.
    destruct (async_each_returned_elem _ _ sibling _ _ _
                (emits_linkCandidate build this pkg) Hin Hlink)
      as (sa & sb & rx & pre & post & Hit & Hpre & Hpost).
    destruct (linkCandidate_checks_first pkg sibling range sa Hrange Hne) as (evs' & Hev).
    rewrite Hit in Hev. cbn [snd] in Hev.
    assert (evsL = pre ++ check :: evs' ++ post) as ->.
    { apply (app_inv_head (trace s2)).
      rewrite <- HtrL, Hpost, Hev, Hpre, <- !app_assoc. done. }
    apply elem_of_app. right. by left.
Qed.

End LinkedOnce.

(** * The claims *)

Section Claims.
Context {World : Type} `{!Env World}.
Variable build : Build.
Variable this : Command.
Local Abbreviation M := (M World).

(** C1 (amended). For a dependent [pkg] and a candidate [dependency], the
    link is attempted if and only if the name of the candidate is a key of
    [pkg.allDependencies] whose range is not the empty string and the version
    of the candidate satisfies that range; when the candidate is declared
    with a non-empty range that its version does not satisfy, nothing is
    linked, the world is left as it was, the iteration reports no error, and
    the version-mismatch warning is logged. *)
Theorem C1_link_iff_declared_and_compatible (pkg dependency : Package)
    (st : State World) :
  let run := linkCandidate build this pkg dependency st in
  let expected := allDependencies pkg !! name dependency in
  ∃ evs,
    trace run.2 = trace st ++ evs
    ∧ (link_attempted pkg dependency evs
       ↔ ∃ range, expected = Some range ∧ range ≠ EmptyString
                  ∧ semver_satisfies (Some (version dependency)) (Some range) = true)
    ∧ (∀ range,
         expected = Some range → range ≠ EmptyString →
         semver_satisfies (Some (version dependency)) (Some range) = false →
         run.1 = Returned None ∧ world run.2 = world st
         ∧ evs = [EvSatisfies (Some (version dependency)) (Some range) false;
                  EvWarning (mismatch_warning pkg dependency (Some range)
                               (version dependency))]).
Proof.
  intros run expected.
  destruct (linkCandidate_attempt_iff build this pkg dependency st) as (evs & Htr & Hiff).
  exists evs. split; [done|]. split.
  - by rewrite Hiff, dependencyMatches_iff.
  - intros range Hrange Hne Hsat.
    assert (Hm : dependencyMatches pkg dependency = false).
    { apply not_true_iff_false. rewrite dependencyMatches_iff.
      intros (r & Hr & _ & Hs). subst expected. congruence. }
    subst run. revert Htr. rewrite linkCandidate_run, Hm. cbn.
    rewrite (matching_events_mismatch pkg dependency range) by done.
    intros Htr. apply app_inv_head in Htr. done.
Qed.

(** The manifest that is written.  When the files of a linked sibling are
    created, the manifest written at [dest/package.json] is the serialisation
    of an object whose fields are [name], then [version] copied from the
    manifest of the sibling as [require] reads it at that time (absent when
    that manifest has none), and, in the compiled build only, [main] copied
    from the same manifest. *)
Lemma generated_manifest_written (src dest name : string) (st st' : State World)
    (r : option Error) :
  createLinkedDependencyFiles build this src dest name st = (Returned r, st') →
  ∃ pkg w evs,
    require_view st (path_join [src; "package.json"]) = inr pkg
    ∧ trace st' = trace st ++ evs
    ∧ EvWriteFile (path_join [dest; "package.json"])
        (JSON_stringify_object (manifest_object build name pkg) "  ") w ∈ evs
    ∧ own_fields (manifest_object build name pkg)
      = ("name", name)
        :: match pj_version pkg with Some v => [("version", v)] | None => [] end
        ++ match build with
           | EsSource => []
           | CompiledLib =>
               match pj_main pkg with Some m => [("main", m)] | None => [] end
           end.
Proof.
  intros Hrun.
  destruct (createLinkedDependencyFiles_manifest build this src dest name st st' r Hrun)
    as (pkg & w & evs & Hview & Htr & Hin).
  exists pkg, w, evs. repeat split; try done. apply manifest_object_fields.
Qed.

(** C3 (amended). With unique package names, the batch of the external
    installer for [pkg] is made of the specifications [name@range] of the
    retained dependencies, and a declared dependency [d] is left out if and
    only if (a) a package of the workspace is named [d], the range declared
    for it is not the empty string and the version of that package satisfies
    it, or (b) the manifest of the copy installed under the dependency
    directory can be read and its version satisfies the declared range; a
    manifest that cannot be read or parsed counts as not installed.  A batch
    that is not empty is handed to the installer in one call. *)
Theorem C3_external_batch (pkg : Package) (st : State World) :
  NoDup (map name (packages this)) →
  let batch := map (install_spec pkg) (external_names this st pkg) in
  (∃ st', externalPackages this pkg st = (Returned batch, st'))
  ∧ (∀ d, d ∈ external_names this st pkg
          ↔ is_Some (allDependencies pkg !! d)
            ∧ ¬ sibling_satisfies this pkg d ∧ ¬ installed_satisfies st pkg d)
  ∧ (∀ d range, allDependencies pkg !! d = Some range →
                 install_spec pkg d = d +:+ "@" +:+ range)
  ∧ (∃ st', world st' = world st
            ∧ installExternalPackages this pkg st
              = match batch with
                | [] => (Returned None, st')
                | _ => installInDir (location pkg) batch st'
                end).
Proof.
  intros Hnd batch. split; [|split; [|split]].
  - destruct (externalPackages_run this pkg st) as (st' & Hrun & _). eauto.
  - intros d. by apply external_names_iff.
  - intros d range Hrange. unfold install_spec. by rewrite Hrange.
  - destruct (installExternalPackages_run this pkg st) as (st' & [Hw _] & Hrun).
    exists st'. split; [done|]. rewrite Hrun. subst batch.
    by destruct (map (install_spec pkg) _).
Qed.

(** C4 (amended). With unique package names, for a package [sibling] of the
    workspace that [pkg] declares with a non-empty range, the compatibility
    of its version with that range is evaluated in the install phase and
    again in the link phase, once by each call of [hasMatchingDependency]: in
    a pipeline of [pkg] that succeeds, the evaluation is among the events of
    the install phase and among the events of the link phase.  In every
    pipeline of [pkg], the resets of link targets are, in order, those of the
    targets of the matching candidates that the link phase reached, one reset
    for each of them, all of them when the pipeline succeeds; the names of
    these candidates are pairwise distinct, and whatever is handed to the
    external installer names no candidate that matches. *)
Theorem C4_checked_in_both_phases (pkg sibling : Package) (range : string)
    (st : State World) :
  NoDup (map name (packages this)) →
  sibling ∈ packages this →
  allDependencies pkg !! name sibling = Some range →
  range ≠ EmptyString →
  let check := EvSatisfies (Some (version sibling)) (Some range)
                 (semver_satisfies (Some (version sibling)) (Some range)) in
  let run := bootstrapPackage build this pkg st in
  (∃ evs, trace (externalPackages this pkg st).2 = trace st ++ evs ∧ check ∈ evs)
  ∧ (∀ s, ∃ evs, trace (linkCandidate build this pkg sibling s).2
                 = trace s ++ check :: evs)
  ∧ (∀ showWarning s,
       ∃ evs, trace (hasMatchingDependency pkg sibling showWarning s).2 = trace s ++ evs
              ∧ ∀ actual expected, (compat_checks actual expected evs ≤ 1)%nat)
  ∧ (∀ st', run = (Returned None, st') →
       ∃ evsI evsL,
         trace st' = trace st ++ [EvMkdirp (nodeModulesLocation pkg) None] ++ evsI
                       ++ evsL ++ [EvProgressTick (name pkg)]
         ∧ Forall (install_phase_event pkg) evsI
         ∧ Forall (link_phase_event build this pkg) evsL
         ∧ check ∈ evsI ∧ check ∈ evsL)
  ∧ (∃ evs attempted,
       trace run.2 = trace st ++ evs
       ∧ attempted `prefix_of` packages this
       ∧ (run.1 = Returned None → attempted = packages this)
       ∧ Forall2 (resets_target pkg)
           (List.filter (dependencyMatches pkg) attempted) (List.filter is_reset evs)
       ∧ NoDup (map name (List.filter (dependencyMatches pkg) attempted))
       ∧ (∀ dir specs r, EvInstallInDir dir specs r ∈ evs →
            ∃ names, specs = map (install_spec pkg) names
                     ∧ ∀ candidate, candidate ∈ packages this →
                                    dependencyMatches pkg candidate = true →
                                    name candidate ∉ names))
  ∧ NoDup (map name (List.filter (dependencyMatches pkg) (packages this)))
  ∧ (∀ s evs, trace (linkCandidate build this pkg sibling s).2 = trace s ++ evs →
              link_attempted pkg sibling evs →
              (externalPackages this pkg st).1
              = Returned (map (install_spec pkg) (external_names this st pkg))
              ∧ name sibling ∉ external_names this st pkg).
Proof.
  intros Hnd Hin Hrange Hne check run.
  split; [|split; [|split; [|split; [|split; [|split]]]]].
  - by apply externalPackages_checks_sibling.
  - intros s. by apply linkCandidate_checks_first.
  - intros showWarning s. rewrite hasMatchingDependency_run. cbn [snd trace].
    eexists. split; [reflexivity|]. intros actual expected.
    apply matching_events_checks.
  - intros st' Hrun.
    by apply (bootstrapPackage_checks_twice build this pkg sibling range st st').
  - destruct (bootstrapPackage_links_once build this pkg st Hnd)
      as (evs & attempted & Htr & Hprefix & Hall & Hresets & Hbatch).
    exists evs, attempted. repeat (split; [done|]). split; [|done].
    apply linked_names_NoDup. destruct Hprefix as [rest Hrest].
    rewrite Hrest, map_app in Hnd. by apply NoDup_app in Hnd as [? _].
  - by apply linked_names_NoDup.
  - intros s evs Htr Hlinked.
    destruct (linkCandidate_attempt_iff build this pkg sibling s) as (evs' & Htr' & Hiff).
    rewrite Htr in Htr'. apply app_inv_head in Htr'. subst evs'.
    apply Hiff in Hlinked. split.
    + destruct (externalPackages_run this pkg st) as (st' & -> & _). done.
    + rewrite external_names_iff by done. intros (_ & Hsib & _). apply Hsib.
      by exists sibling.
Qed.

(** C5 (amended). A manifest of an installed copy that cannot be read or
    parsed is never fatal: [hasDependencyInstalled] catches the failure,
    answers that the dependency is not installed and leaves the world as it
    was, and the computation of the batch of the external installer always
    returns. *)
Theorem C5_installed_manifest_failure_is_swallowed (pkg : Package)
    (dependency : string) (st : State World) :
  (∃ installed st',
     hasDependencyInstalled pkg dependency st = (Returned installed, st')
     ∧ world st' = world st
     ∧ ∀ e, require_view st (installed_manifest pkg dependency) = inl e →
            installed = false
            ∧ trace st' = trace st ++ [EvRequire (installed_manifest pkg dependency) (inl e)])
  ∧ (∃ batch st', externalPackages this pkg st = (Returned batch, st')).
Proof.
  split.
  - pose proof (hasDependencyInstalled_run pkg dependency st) as Hrun. cbv zeta in Hrun.
    rewrite Hrun.
    destruct (require_view st (installed_manifest pkg dependency)) as [e|pj].
    + eexists _, _. split; [reflexivity|]. split; [done|].
      by intros e' [= <-].
    + eexists _, _. split; [reflexivity|]. split; [done|]. done.
  - destruct (externalPackages_run this pkg st) as (st' & Hrun & _). eauto.
Qed.

(** C6 (amended). The candidates of the link phase of [pkg] are all the
    packages of the workspace, [pkg] included: in a link phase that returns,
    every candidate that matches is linked; [pkg] itself is linked into its
    own dependency directory exactly when it declares its own name with a
    non-empty range that its own version satisfies. *)
Theorem C6_candidates_include_the_package (pkg candidate : Package)
    (st st' : State World) (r : option Error) :
  candidate ∈ packages this →
  linkDependenciesForPackage build this pkg st = (Returned r, st') →
  (dependencyMatches pkg candidate = true →
   ∃ evs, trace st' = trace st ++ evs ∧ link_attempted pkg candidate evs)
  ∧ (∀ s, ∃ evs,
       trace (linkCandidate build this pkg pkg s).2 = trace s ++ evs
       ∧ (link_attempted pkg pkg evs
          ↔ ∃ range, allDependencies pkg !! name pkg = Some range
                     ∧ range ≠ EmptyString
                     ∧ semver_satisfies (Some (version pkg)) (Some range) = true)).
Proof.
  intros Hin Hrun. split.
  - intros Hm. by eapply linkDependenciesForPackage_links.
  - intros s.
    destruct (linkCandidate_attempt_iff build this pkg pkg s) as (evs & Htr & Hiff).
    exists evs. split; [done|]. by rewrite Hiff, dependencyMatches_iff.
Qed.


(** C8. For a matched file that is not a [.js] file, a symbolic link that
    fails with code [EEXIST] is reported as done, and any other failure of
    the link is reported.  A file-level operation
    that fails otherwise (the reset or the creation of the target, a glob,
    the creation of a parent directory, the writing of a proxy or of the
    manifest, a link) makes the linking of the pair fail, and makes the
    pipeline of the package fail. *)
Theorem C8_failures_propagate (prefix src dest name file : string) (pkg : Package)
    (st : State World) :
  path_extname file ≠ ".js" →
  let dir := path_dirname (path_join [dest; file]) in
  (linkFile prefix src dest file st).1
  = Returned
      match FileSystemUtilities_mkdirp dir (world st) with
      | (Some e, _) => Some e
      | (None, w) =>
          match symlink (path_join [src; file]) (path_join [dest; file]) w with
          | (Some e, _) => if decide (code e = Some "EEXIST") then None else Some e
          | (None, _) => None
          end
      end
  ∧ (∀ s evs ev,
       trace (createLinkedDependency build this src dest name s).2 = trace s ++ evs →
       ev ∈ evs → fs_ok ev = false →
       (createLinkedDependency build this src dest name s).1 ≠ Returned None)
  ∧ (∀ s evs ev,
       trace (bootstrapPackage build this pkg s).2 = trace s ++ evs →
       ev ∈ evs → fs_ok ev = false →
       (bootstrapPackage build this pkg s).1 ≠ Returned None).
Proof.
  intros Hext dir. split; [|split].
  - pose proof (linkFile_run prefix src dest file st) as Hrun. cbv zeta in Hrun.
    fold dir in Hrun.
    destruct (FileSystemUtilities_mkdirp dir (world st)) as [[e|] w].
    + by rewrite Hrun.
    + destruct Hrun as (r & w' & -> & Hop). cbn.
      rewrite decide_False in Hop by done. rewrite <- Hop.
      unfold materialize_result. by rewrite decide_False.
  - intros s evs ev Htr Hin Hfail Hnone.
    by eapply (clean_failure _ (clean_createLinkedDependency build this src dest name)).
  - intros s evs ev Htr Hin Hfail Hnone.
    by eapply (clean_failure _ (clean_bootstrapPackage build this pkg)).
Qed.

(** C9 (amended). With a concurrency of at least one, the orchestrator
    reports success if and only if every pipeline, run in order, succeeds;
    otherwise it reports the first failure: the pipelines before it
    succeeded, at most [concurrency - 1] pipelines that follow the failing
    one, started with it, still run, and no other pipeline is started.
    [execute] hands this result to its callback. *)
Theorem C9_orchestrator_result (others : nat) (st : State World) :
  concurrency this = S others →
  let pkgs := PackageUtilities_filterPackages (packages this)
                (js_or (flags_ignore this) (bootstrapConfig_ignore this)) true in
  let tasks := map (bootstrapPackage build this) pkgs in
  let st0 := mkState (world st) (modules st)
               (trace st ++ [EvProgressInit (length (packages this));
                             EvInfo "Linking all dependencies"]) in
  (∀ st', linkDependencies build this st = (Returned None, st')
          ↔ ∃ s, run_in_order tasks st0 = (Returned (replicate (length tasks) None), s)
                 ∧ st' = mkState (world s) (modules s) (trace s ++ [EvProgressTerminate]))
  ∧ (∀ e st', linkDependencies build this st = (Returned (Some e), st')
          ↔ ∃ k pkg s1 s2 s3,
              pkgs !! k = Some pkg
              ∧ run_in_order (take k tasks) st0 = (Returned (replicate k None), s1)
              ∧ bootstrapPackage build this pkg s1 = (Returned (Some e), s2)
              ∧ run_started (take others (drop (S k) tasks)) s2 = (Returned (), s3)
              ∧ st' = mkState (world s3) (modules s3) (trace s3 ++ [EvProgressTerminate]))
  ∧ (execute build this st).1
    = match (linkDependencies build this st).1 with
      | Returned None => Returned (inr true)
      | Returned (Some e) => Returned (inl e)
      | Thrown e => Thrown e
      end.
Proof.
  intros Hlimit pkgs tasks st0.
  assert (Hrun : linkDependencies build this st
                 = match parallelLimit_pool others tasks st0 with
                   | (Returned err, s) =>
                       (Returned err,
                        mkState (world s) (modules s) (trace s ++ [EvProgressTerminate]))
                   | (Thrown e, s) => (Thrown e, s)
                   end).
  { unfold linkDependencies. rewrite Hlimit. cbn [async_parallelLimit].
    do 2 (rewrite run_bind; unfold log at 1; cbn [world modules trace]).
    rewrite <- app_assoc. cbn [app].
    fold pkgs. fold tasks. fold st0. rewrite run_bind.
    destruct (parallelLimit_pool others tasks st0) as [[err|e] s]; [|done].
    by rewrite run_bind. }
  split; [|split].
  - intros st'. rewrite Hrun. split.
    + destruct (parallelLimit_pool others tasks st0) as [[err|e] s] eqn:Hpool; [|done].
      intros [= -> <-]. apply parallelLimit_pool_none in Hpool. eauto.
    + intros (s & Hall & ->).
      apply (proj2 (parallelLimit_pool_none others tasks st0 s)) in Hall.
      by rewrite Hall.
  - intros e st'. rewrite Hrun. split.
    + destruct (parallelLimit_pool others tasks st0) as [[err|e'] s] eqn:Hpool; [|done].
      intros [= -> <-].
      apply parallelLimit_pool_some in Hpool as (k & task & s1 & s2 & Hk & Hpre & Ht & Hrest).
      subst tasks. rewrite list_lookup_fmap in Hk.
      destruct (pkgs !! k) as [pkg|] eqn:Hpkg; [|done]. injection Hk as <-.
      exists k, pkg, s1, s2, s. done.
    + intros (k & pkg & s1 & s2 & s3 & Hk & Hpre & Ht & Hrest & ->).
      assert (Hpool : parallelLimit_pool others tasks st0 = (Returned (Some e), s3)).
      { apply parallelLimit_pool_some. exists k, (bootstrapPackage build this pkg), s1, s2.
        split; [|done]. subst tasks. by rewrite list_lookup_fmap, Hk. }
      by rewrite Hpool.
  - unfold execute. rewrite run_bind.
    destruct (linkDependencies build this st) as [[[e|]|e] s]; [done| |done].
    by rewrite run_bind.
Qed.


End Claims.

(** * The claims on the in-memory workspace *)

Section Scenarios.
#[local] Existing Instance Mem.env.

Ltac in_list := repeat first [apply list_elem_of_here | apply list_elem_of_further].
Ltac not_in_list H :=
  repeat (apply elem_of_cons in H as [H|H]; [discriminate H|]);
  by apply elem_of_nil in H.

(** The scenario: [A] gets a proxy of the main entry of [B] and the
    generated manifest of [B]. *)
Example bootstrap_scenario :
  let run := execute EsSource Mem.command0 (Mem.start Mem.world0) in
  run.1 = Returned (inr true)
  ∧ Mem.nodes (world run.2) !! "/ws/A/node_modules/B/index.js"
    = Some (Mem.TextFile (proxy_content EmptyString "/ws/B" "index.js"))
  ∧ Mem.nodes (world run.2) !! "/ws/A/node_modules/B/package.json"
    = Some (Mem.TextFile
              (JSON_stringify_object [("name", Some "B"); ("version", Some "1.2.0")] "  ")).
Proof. repeat split; by vm_compute. Qed.

(** The scenario of a mismatch: [A] wants [B@2.0.0], the workspace has
    [B@1.2.0]; nothing is linked for [B], a warning names both versions, and
    [B@2.0.0] is handed to the installer. *)
Example mismatch_scenario :
  let this := Mem.workspace [Mem.pkgA_next; Mem.pkgB] 4 in
  let run := execute EsSource this (Mem.start Mem.world0) in
  run.1 = Returned (inr true)
  ∧ EvInstallInDir "/ws/A" ["B@2.0.0"] None ∈ trace run.2
  ∧ EvWarning (mismatch_warning Mem.pkgA_next Mem.pkgB (Some "2.0.0") "1.2.0")
    ∈ trace run.2
  ∧ Mem.nodes (world run.2) !! "/ws/A/node_modules/B/package.json" = None.
Proof.
  split; [by vm_compute|]. split; [vm_compute; in_list|].
  split; [vm_compute; in_list | by vm_compute].
Qed.

Example extname_examples :
  path_extname "index.js" = ".js"
  ∧ path_extname "lib/data.json" = ".json"
  ∧ path_extname "view.jsx" = ".jsx"
  ∧ path_extname "README" = EmptyString
  ∧ path_extname ".js" = EmptyString.
Proof. repeat split; by vm_compute. Qed.

Example stringify_examples :
  JSON_stringify_string "/ws/B/index.js" = dquote +:+ "/ws/B/index.js" +:+ dquote
  ∧ JSON_stringify_string ("C:" +:+ backslash +:+ "ws")
    = dquote +:+ "C:" +:+ backslash +:+ backslash +:+ "ws" +:+ dquote
  ∧ JSON_stringify_object [("name", Some "B"); ("version", None)] "  "
    = "{" +:+ newline +:+ "  " +:+ dquote +:+ "name" +:+ dquote +:+ ": "
      +:+ dquote +:+ "B" +:+ dquote +:+ newline +:+ "}".
Proof. repeat split; by vm_compute. Qed.

(** C1, counterexample. [A] declares [B] with the empty range, which the
    version of [B] satisfies, and [B] is not linked. *)
Lemma C1_counterexample_empty_range :
  let pkg := Mem.pkgA_any in
  let run := linkCandidate EsSource Mem.command0 pkg Mem.pkgB (Mem.start Mem.world0) in
  ¬ (link_attempted pkg Mem.pkgB (trace run.2)
     ↔ is_Some (allDependencies pkg !! name Mem.pkgB)
       ∧ semver_satisfies (Some (version Mem.pkgB))
           (allDependencies pkg !! name Mem.pkgB) = true).
Proof.
  intros pkg run [_ Hlink].
  destruct Hlink as [r Hin].
  - split; [by exists EmptyString | reflexivity].
  - vm_compute in Hin. inversion Hin.
Qed.

(** C1, an instance: [A] wants [B@2.0.0], the workspace has [B@1.2.0]; no
    link, no error, a warning. *)
Lemma C1_witness_version_mismatch :
  let st := Mem.start Mem.world0 in
  let run := linkCandidate EsSource Mem.command0 Mem.pkgA_next Mem.pkgB st in
  run.1 = Returned None ∧ world run.2 = world st
  ∧ ∃ evs, trace run.2 = trace st ++ evs
           ∧ evs = [EvSatisfies (Some "1.2.0") (Some "2.0.0") false;
                    EvWarning (mismatch_warning Mem.pkgA_next Mem.pkgB
                                 (Some "2.0.0") "1.2.0")].
Proof.
  intros st run.
  destruct (C1_link_iff_declared_and_compatible EsSource Mem.command0
              Mem.pkgA_next Mem.pkgB st) as (evs & Htr & _ & Hwarn).
  destruct (Hwarn "2.0.0") as (Hres & Hworld & Hevs);
    [reflexivity | discriminate | reflexivity |].
  split; [exact Hres|]. split; [exact Hworld|].
  exists evs. split; [exact Htr | exact Hevs].
Defined.

(** C2. The compiled build of the command diverges from its source.
    Linking [B] into [A], the source writes a manifest with the fields [name]
    and [version] only, the version being the one of [B]; the compiled build
    writes a third field, [main], copied from the manifest of [B]. *)
Theorem C2_compiled_build_writes_main :
  let st := Mem.start Mem.world0 in
  let target := "/ws/A/node_modules/B/package.json" in
  let run build := createLinkedDependencyFiles build Mem.command0
                     "/ws/B" "/ws/A/node_modules/B" "B" st in
  let expected :=
    JSON_stringify_object [("name", Some "B"); ("version", Some (version Mem.pkgB))]
      "  " in
  let compiled :=
    JSON_stringify_object
      [("name", Some "B"); ("version", Some (version Mem.pkgB));
       ("main", Some "index.js")] "  " in
  ((run EsSource).1 = Returned None
   ∧ EvWriteFile target expected None ∈ trace (run EsSource).2
   ∧ Mem.nodes (world (run EsSource).2) !! target = Some (Mem.TextFile expected)
   ∧ own_fields (manifest_object EsSource "B" Mem.manifestB)
     = [("name", "B"); ("version", version Mem.pkgB)])
  ∧ ((run CompiledLib).1 = Returned None
     ∧ EvWriteFile target compiled None ∈ trace (run CompiledLib).2
     ∧ Mem.nodes (world (run CompiledLib).2) !! target = Some (Mem.TextFile compiled)
     ∧ compiled ≠ expected
     ∧ own_fields (manifest_object CompiledLib "B" Mem.manifestB)
       = [("name", "B"); ("version", version Mem.pkgB); ("main", "index.js")]).
Proof.
  split.
  - split; [by vm_compute|]. split; [vm_compute; in_list|]. split; by vm_compute.
  - split; [by vm_compute|]. split; [vm_compute; in_list|]. split; [by vm_compute|].
    split; [|by vm_compute]. intros Heq. vm_compute in Heq. discriminate Heq.
Qed.

(** The manifest that is written, an instance: the ES source writes [name]
    and [version] only. *)
Example generated_manifest_source_build :
  let st := Mem.start Mem.world0 in
  let run := createLinkedDependencyFiles EsSource Mem.command0
               "/ws/B" "/ws/A/node_modules/B" "B" st in
  ∃ pkg w evs,
    require_view st (path_join ["/ws/B"; "package.json"]) = inr pkg
    ∧ trace run.2 = trace st ++ evs
    ∧ EvWriteFile (path_join ["/ws/A/node_modules/B"; "package.json"])
        (JSON_stringify_object (manifest_object EsSource "B" pkg) "  ") w ∈ evs
    ∧ own_fields (manifest_object EsSource "B" pkg)
      = ("name", "B")
        :: match pj_version pkg with Some v => [("version", v)] | None => [] end
        ++ [].
Proof.
  intros st run.
  apply (generated_manifest_written EsSource Mem.command0
           "/ws/B" "/ws/A/node_modules/B" "B" st run.2 None).
  vm_compute. reflexivity.
Defined.

(** C3, counterexample. [B] is in the workspace and its version satisfies
    the empty range that [A] declares, yet [B] is in the batch. *)
Lemma C3_counterexample_empty_range :
  let this := Mem.workspace [Mem.pkgA_any; Mem.pkgB] 4 in
  let pkg := Mem.pkgA_any in
  (∃ sibling, sibling ∈ packages this ∧ name sibling = "B"
     ∧ semver_satisfies (Some (version sibling)) (allDependencies pkg !! "B") = true)
  ∧ (externalPackages this pkg (Mem.start Mem.world0)).1 = Returned ["B@"].
Proof.
  split; [|by vm_compute].
  exists Mem.pkgB. split; [in_list|]. split; reflexivity.
Qed.

(** C3, an instance: the scenario. *)
Lemma C3_witness_scenario :
  let st := Mem.start Mem.world0 in
  let batch := map (install_spec Mem.pkgA) (external_names Mem.command0 st Mem.pkgA) in
  (∃ st', externalPackages Mem.command0 Mem.pkgA st = (Returned batch, st'))
  ∧ (∀ d, d ∈ external_names Mem.command0 st Mem.pkgA
          ↔ is_Some (allDependencies Mem.pkgA !! d)
            ∧ ¬ sibling_satisfies Mem.command0 Mem.pkgA d
            ∧ ¬ installed_satisfies st Mem.pkgA d)
  ∧ (∀ d range, allDependencies Mem.pkgA !! d = Some range →
                 install_spec Mem.pkgA d = d +:+ "@" +:+ range)
  ∧ (∃ st', world st' = world st
            ∧ installExternalPackages Mem.command0 Mem.pkgA st
              = match batch with
                | [] => (Returned None, st')
                | _ => installInDir (location Mem.pkgA) batch st'
                end).
Proof.
  apply (C3_external_batch Mem.command0 Mem.pkgA (Mem.start Mem.world0)).
  apply (bool_decide_unpack _). vm_compute. exact I.
Defined.

(** C4, counterexample. In the pipeline of [A], the compatibility of the
    version of [B] with the declared range is evaluated twice. *)
Lemma C4_counterexample_checked_twice :
  let run := bootstrapPackage EsSource Mem.command0 Mem.pkgA (Mem.start Mem.world0) in
  run.1 = Returned None
  ∧ compat_checks (Some "1.2.0") (Some "1.2.0") (trace run.2) = 2.
Proof. split; by vm_compute. Qed.

(** C4, an instance: the scenario.  The compatibility of [B] is evaluated
    in both phases of the pipeline of [A], and the pipeline resets one link
    target, the one of [B]. *)
Lemma C4_witness_scenario :
  let st := Mem.start Mem.world0 in
  let check := EvSatisfies (Some "1.2.0") (Some "1.2.0") true in
  let run := bootstrapPackage EsSource Mem.command0 Mem.pkgA st in
  (∃ evs, trace (externalPackages Mem.command0 Mem.pkgA st).2 = trace st ++ evs
          ∧ check ∈ evs)
  ∧ (∀ s, ∃ evs, trace (linkCandidate EsSource Mem.command0 Mem.pkgA Mem.pkgB s).2
                 = trace s ++ check :: evs)
  ∧ (∃ evsI evsL,
       trace run.2 = trace st ++ [EvMkdirp "/ws/A/node_modules" None] ++ evsI ++ evsL
                       ++ [EvProgressTick "A"]
       ∧ check ∈ evsI ∧ check ∈ evsL)
  ∧ (∃ evs reset,
       trace run.2 = trace st ++ evs
       ∧ List.filter is_reset evs = [reset]
       ∧ resets_target Mem.pkgA Mem.pkgB reset).
Proof.
  intros st check run.
  destruct (C4_checked_in_both_phases EsSource Mem.command0 Mem.pkgA Mem.pkgB "1.2.0" st)
    as (Hinstall & Hlink & _ & Htwice & Honce & _).
  - apply (bool_decide_unpack _). vm_compute. exact I.
  - in_list.
  - reflexivity.
  - discriminate.
  - split; [exact Hinstall|]. split; [exact Hlink|]. split.
    + destruct (Htwice run.2) as (evsI & evsL & Htr & _ & _ & HinI & HinL).
      { vm_compute. reflexivity. }
      exists evsI, evsL. split; [exact Htr|]. split; [exact HinI | exact HinL].
    + destruct Honce as (evs & attempted & Htr & _ & Hall & Hresets & _).
      rewrite Hall in Hresets by (vm_compute; reflexivity).
      change (List.filter (dependencyMatches Mem.pkgA) (packages Mem.command0))
        with [Mem.pkgB] in Hresets.
      apply Forall2_cons_inv_l in Hresets as (reset & rest & Hreset & Hrest & Heq).
      apply Forall2_nil_inv_l in Hrest. subst rest.
      exists evs, reset. split; [exact Htr|]. split; [exact Heq | exact Hreset].
Defined.

(** C5, counterexample. The manifest of the sibling [B] cannot be parsed:
    the failure is thrown out of the pipeline of [A], and out of the run. *)
Lemma C5_counterexample_sibling_manifest :
  (bootstrapPackage EsSource Mem.command0 Mem.pkgA (Mem.start Mem.world_malformed)).1
  = Thrown Mem.SYNTAX
  ∧ (execute EsSource Mem.command0 (Mem.start Mem.world_malformed)).1
    = Thrown Mem.SYNTAX.
Proof. split; by vm_compute. Qed.

(** C5, an instance: no copy of [B] is installed for [A]. *)
Lemma C5_witness_not_installed :
  let st := Mem.start Mem.world0 in
  ∃ st', hasDependencyInstalled Mem.pkgA "B" st = (Returned false, st')
         ∧ world st' = world st.
Proof.
  intros st.
  destruct (C5_installed_manifest_failure_is_swallowed Mem.command0 Mem.pkgA "B" st)
    as ((installed & st' & Hrun & Hworld & Hfail) & _).
  destruct (Hfail Mem.NOT_FOUND) as [-> _]; [reflexivity|].
  exists st'. split; [exact Hrun | exact Hworld].
Defined.

(** C6, counterexample. [A] declares itself, and is linked into its own
    dependency directory by its own pipeline. *)
Lemma C6_counterexample_self_link :
  let this := Mem.workspace [Mem.pkgA_self; Mem.pkgB] 4 in
  let run := linkDependenciesForPackage EsSource this Mem.pkgA_self
               (Mem.start Mem.world0) in
  Mem.pkgA_self ∈ packages this
  ∧ run.1 = Returned None
  ∧ link_attempted Mem.pkgA_self Mem.pkgA_self (trace run.2).
Proof.
  split; [in_list|]. split; [by vm_compute|].
  exists None. vm_compute. in_list.
Qed.

(** C6, an instance: the same workspace. *)
Lemma C6_witness_self_candidate :
  let this := Mem.workspace [Mem.pkgA_self; Mem.pkgB] 4 in
  let st := Mem.start Mem.world0 in
  let run := linkDependenciesForPackage EsSource this Mem.pkgA_self st in
  ∃ evs, trace run.2 = trace st ++ evs
         ∧ link_attempted Mem.pkgA_self Mem.pkgA_self evs.
Proof.
  intros this st run.
  destruct (C6_candidates_include_the_package EsSource this Mem.pkgA_self Mem.pkgA_self
              st run.2 None) as [Hlinked _].
  - in_list.
  - vm_compute. reflexivity.
  - apply Hlinked. reflexivity.
Defined.



(** C8, an instance: the link to the data file of [B] is already there. *)
Lemma C8_witness_link_exists :
  let st := Mem.start Mem.world_relinked in
  (linkFile EmptyString "/ws/B" "/ws/A/node_modules/B" "data.json" st).1 = Returned None.
Proof.
  intros st.
  destruct (C8_failures_propagate EsSource Mem.command0 EmptyString
              "/ws/B" "/ws/A/node_modules/B" "B" "data.json" Mem.pkgA st) as [Hres _].
  - discriminate.
  - rewrite Hres. reflexivity.
Defined.

(** C8: a file matched twice is linked once; the second link is refused
    with [EEXIST] and the pipeline succeeds. *)
Example bootstrap_with_duplicate_match :
  let run := bootstrapPackage EsSource Mem.command0 Mem.pkgA (Mem.start Mem.world_data) in
  run.1 = Returned None
  ∧ EvSymlink "/ws/B/data.json" "/ws/A/node_modules/B/data.json" (Some Mem.EEXIST)
    ∈ trace run.2.
Proof. split; [by vm_compute|]. vm_compute. in_list. Qed.

(** C8: the proxy of the main entry of [B] cannot be written; the
    pipeline of [A] fails with that error, and the generated manifest is
    still written. *)
Example failure_of_a_proxy_write :
  let w := Mem.mkWorld Mem.disk0 ["/ws/A/node_modules/B/index.js"] true in
  let run := bootstrapPackage EsSource Mem.command0 Mem.pkgA (Mem.start w) in
  run.1 = Returned (Some Mem.EACCES)
  ∧ EvWriteFile "/ws/A/node_modules/B/package.json"
      (JSON_stringify_object [("name", Some "B"); ("version", Some "1.2.0")] "  ")
      None ∈ trace run.2.
Proof. split; [by vm_compute|]. vm_compute. in_list. Qed.

(** C9, counterexample. With a concurrency of one, the pipeline of [A]
    fails and the pipeline of [B] is never started. *)
Lemma C9_counterexample_not_started :
  let this := Mem.workspace [Mem.pkgA; Mem.pkgB] 1 in
  let run := linkDependencies EsSource this (Mem.start Mem.world_denied) in
  Mem.pkgB ∈ PackageUtilities_filterPackages (packages this)
               (js_or (flags_ignore this) (bootstrapConfig_ignore this)) true
  ∧ run.1 = Returned (Some Mem.EACCES)
  ∧ EvProgressTick "B" ∉ trace run.2.
Proof.
  split; [vm_compute; in_list|]. split; [by vm_compute|].
  intros Hin. vm_compute in Hin. not_in_list Hin.
Qed.

(** C9, an instance: with a concurrency of two, the pipeline of [B] was
    started with the one of [A] and completes. *)
Lemma C9_witness_started_with_failure :
  let this := Mem.workspace [Mem.pkgA; Mem.pkgB] 2 in
  let st := Mem.start Mem.world_denied in
  (execute EsSource this st).1
  = match (linkDependencies EsSource this st).1 with
    | Returned None => Returned (inr true)
    | Returned (Some e) => Returned (inl e)
    | Thrown e => Thrown e
    end.
Proof.
  intros this st.
  destruct (C9_orchestrator_result EsSource this 1 st) as (_ & _ & Hexec).
  - reflexivity.
  - exact Hexec.
Defined.

(** The array of linked files is the one of the cached manifest: each link
    of [B] pushes its main entry once more. *)
Example main_entry_accumulates :
  let this := Mem.workspace [Mem.pkgA; Mem.pkgC; Mem.pkgB] 1 in
  let run := linkDependencies EsSource this (Mem.start Mem.world_data) in
  run.1 = Returned None
  ∧ pj_lerna_files <$> modules run.2 !! "/ws/B/package.json"
    = Some (Some [Some "data.json"; Some "data.json"; Some "data.json"]).
Proof. split; by vm_compute. Qed.

Example failure_with_two_workers :
  let this := Mem.workspace [Mem.pkgA; Mem.pkgB] 2 in
  let run := linkDependencies EsSource this (Mem.start Mem.world_denied) in
  run.1 = Returned (Some Mem.EACCES) ∧ EvProgressTick "B" ∈ trace run.2.
Proof. split; [by vm_compute|]. vm_compute. in_list. Qed.

End Scenarios.

(** * Instances of the properties of the pipeline, in the in-memory world *)

Section Instances.
#[local] Existing Instance Mem.env.

Ltac elem_of_list := repeat first [apply list_elem_of_here | apply list_elem_of_further].

(** X1, an instance: the manifest of [B] cannot be parsed; the exception is
    thrown after the target was reset and created. *)
Lemma createLinkedDependency_stops_at_first_failure_witness :
  let st := Mem.start Mem.world_malformed in
  let dest := "/ws/A/node_modules/B" in
  ∃ w, createLinkedDependency EsSource Mem.command0 "/ws/B" dest "B" st
       = (Thrown Mem.SYNTAX,
          mkState w ∅ [EvRimraf dest None; EvMkdirp dest None;
                       EvRequire "/ws/B/package.json" (inl Mem.SYNTAX)]).
Proof.
  intros st dest.
  assert (Hload : load_json "/ws/B/package.json"
                    (FileSystemUtilities_mkdirp dest
                       (FileSystemUtilities_rimraf dest (world st)).2).2
                  = inl Mem.SYNTAX) by (vm_compute; reflexivity).
  assert (Hreset : (FileSystemUtilities_rimraf dest (world st)).1 = None)
    by (vm_compute; reflexivity).
  assert (Hmake : (FileSystemUtilities_mkdirp dest
                     (FileSystemUtilities_rimraf dest (world st)).2).1 = None)
    by (vm_compute; reflexivity).
  pose proof (createLinkedDependency_stops_at_first_failure EsSource Mem.command0
                "/ws/B" dest "B" st) as Hstop.
  cbv zeta in Hstop. revert Hload Hreset Hmake Hstop.
  destruct (FileSystemUtilities_rimraf dest (world st)) as [[e|] w];
    [intros _ Hreset; discriminate Hreset|].
  change ((None : option Error, w).2) with w.
  destruct (FileSystemUtilities_mkdirp dest w) as [[e|] w'];
    [intros _ _ Hmake; discriminate Hmake|].
  intros Hload _ _ Hstop. exists w'.
  rewrite (Hstop Mem.SYNTAX); [reflexivity | vm_compute; reflexivity | exact Hload].
Defined.

(** X2, an instance: [B] lists its data file in [lerna.files]; after one
    link, the cached array holds the main entry once more. *)
Lemma linked_files_grow_in_the_cache_witness :
  let st := Mem.start Mem.world_data in
  let st' := (createLinkedDependencyFiles EsSource Mem.command0
                "/ws/B" "/ws/A/node_modules/B" "B" st).2 in
  require_view st' "/ws/B/package.json" = inr (after_push Mem.manifestB_data)
  ∧ linked_patterns (after_push Mem.manifestB_data)
    = [Some "data.json"; Some "data.json"; Some "data.json"].
Proof.
  intros st st'.
  destruct (linked_files_grow_in_the_cache EsSource Mem.command0
              "/ws/B" "/ws/A/node_modules/B" "B" st Mem.manifestB_data)
    as (Hcache & Hgrow & _); [reflexivity|].
  split; [exact Hcache|]. rewrite (Hgrow _ eq_refl). reflexivity.
Defined.

(** X3, an instance: the two patterns of [B], its data file twice. *)
Lemma globs_once_per_pattern_witness :
  let st := Mem.start Mem.world_data in
  let run := createLinkedDependencyFiles EsSource Mem.command0
               "/ws/B" "/ws/A/node_modules/B" "B" st in
  ∃ evs,
    trace run.2
    = trace st ++ EvRequire (path_join ["/ws/B"; "package.json"]) (inr Mem.manifestB_data)
        :: glob_events "/ws/B" (world st) (linked_patterns Mem.manifestB_data) ++ evs
    ∧ count_events is_glob evs = 0.
Proof.
  intros st run.
  apply (globs_once_per_pattern EsSource Mem.command0 "/ws/B" "/ws/A/node_modules/B" "B"
           st run.2 None); vm_compute; reflexivity.
Defined.

(** X6, an instance: [A] wants [B@2.0.0], the workspace has [B@1.2.0]: one
    warning. *)
Lemma one_warning_per_mismatch_witness :
  let this := Mem.workspace [Mem.pkgA_next; Mem.pkgB] 4 in
  let st := Mem.start Mem.world0 in
  let run := linkDependenciesForPackage EsSource this Mem.pkgA_next st in
  ∃ evs, trace run.2 = trace st ++ evs ∧ count_events is_warning evs = 1.
Proof.
  intros this st run.
  destruct (one_warning_per_mismatch EsSource this Mem.pkgA_next st run.2 None)
    as [(evs & Htr & Hcount) _]; [vm_compute; reflexivity|].
  exists evs. split; [exact Htr|]. rewrite Hcount. vm_compute. reflexivity.
Defined.

(** X7, an instance: [B] declares nothing. *)
Lemma pipeline_without_dependencies_witness :
  let st := Mem.start Mem.world0 in
  bootstrapPackage EsSource Mem.command0 Mem.pkgB st
  = let '(made, w) := FileSystemUtilities_mkdirp (nodeModulesLocation Mem.pkgB) (world st) in
    (Returned made,
     mkState w (modules st)
       (trace st ++ [EvMkdirp (nodeModulesLocation Mem.pkgB) made;
                     EvProgressTick (name Mem.pkgB)])).
Proof.
  intros st.
  apply (pipeline_without_dependencies EsSource Mem.command0 Mem.pkgB st).
  reflexivity.
Defined.

(** X10, an instance: the scenario; [B] is linked into [A]. *)
Lemma successful_run_links_every_match_witness :
  let st := Mem.start Mem.world0 in
  let run := linkDependencies EsSource Mem.command0 st in
  ∃ evs, trace run.2 = trace st ++ evs
         ∧ link_attempted Mem.pkgA Mem.pkgB evs
         ∧ EvProgressTick (name Mem.pkgA) ∈ evs
         ∧ Forall fs_ok evs.
Proof.
  intros st run.
  apply (successful_run_links_every_match EsSource Mem.command0 3 st run.2
           Mem.pkgA Mem.pkgB).
  - reflexivity.
  - vm_compute. reflexivity.
  - vm_compute. elem_of_list.
  - elem_of_list.
  - vm_compute. reflexivity.
Defined.

(** X11, an instance: two ways to name the same file. *)
Lemma proxy_content_determines_source_witness :
  path_join ["/ws/B"; "lib/index.js"] = path_join ["/ws/B/lib"; "index.js"].
Proof.
  apply (proxy_content_determines_source EmptyString
           "/ws/B" "/ws/B/lib" "lib/index.js" "index.js").
  vm_compute. reflexivity.
Defined.

(** X12, an instance: the registry is down when [A] needs an external
    package; [B] is not linked into [A]. *)
Lemma failed_install_skips_linking_witness :
  let pkg := Mem.declaring Mem.pkgA {[ "B" := "1.2.0"; "left-pad" := "1.0.0" ]} in
  let this := Mem.workspace [pkg; Mem.pkgB] 4 in
  let st := Mem.start (Mem.mkWorld Mem.disk0 [] false) in
  let run := bootstrapPackage EsSource this pkg st in
  run.1 = Returned (Some Mem.INSTALL_FAILED)
  ∧ count_events is_link_operation (trace run.2) = 0
  ∧ count_events is_warning (trace run.2) = 0.
Proof.
  intros pkg this st run.
  apply (failed_install_skips_linking EsSource this pkg st
           "/ws/A" ["left-pad@1.0.0"] Mem.INSTALL_FAILED (trace run.2)).
  - reflexivity.
  - vm_compute. elem_of_list.
Defined.

End Instances.
